(** * split_srt.py: subtitle parsing, overlapping time windows, time codes

    A shallow embedding of [src/split_srt.py].

    Numbers.  Python [int] is [Z].  A Python [float] holding a time in
    seconds is an exact rational [Q]: every finite double is a rational, the
    comparisons, [min] and [max] the partitioner performs on them are exact,
    and the chunk boundaries are computed on [int]s (the command line
    declares [--duration] and [--overlap] with [type=int]).  The arithmetic
    of the two time-code functions is taken exactly, without the rounding of
    a double.

    Text.  A Python [str] is a [string] of characters below 128.

    Exceptions.  A function that may raise returns [result]; the only
    exception these functions raise on a [str] input is [ValueError].

    Loops.  The [while] loop of [split_srt_by_time] runs on fuel: [None]
    means the fuel ran out before the loop stopped. *)

From Stdlib Require Import ZArith QArith Qround Lqa Lia List Bool.
From Stdlib Require Import String Ascii Sorted.
Import ListNotations.

Local Open Scope Z_scope.

(** ** Data *)

(** The dict built by [parse_srt_file] for one subtitle block. *)
Record subtitle : Type := mk_subtitle {
  sub_number : Z;
  sub_start : Q;
  sub_end : Q;
  sub_text : string
}.

(** The dict built by [split_srt_by_time] for one chunk. *)
Record chunk : Type := mk_chunk {
  ch_number : Z;
  start_time : Q;
  end_time : Q;
  ch_subtitles : list subtitle;
  planned_start : Z;
  planned_end : Z
}.

(** ** Comparisons and [min]/[max] on times *)

Definition Qltb (a b : Q) : bool := negb (Qle_bool b a).

(** [max(x, *xs)]: the running maximum is replaced only by a strictly
    greater item, so the first maximal item is returned. *)
Definition py_max (x : Q) (xs : list Q) : Q :=
  fold_left (fun m y => if Qltb m y then y else m) xs x.

(** [min(x, *xs)]: the first minimal item is returned. *)
Definition py_min (x : Q) (xs : list Q) : Q :=
  fold_left (fun m y => if Qltb y m then y else m) xs x.

(** ** [split_srt_by_time] *)

(** The condition of lines 83-84, in its two parts. *)
Definition starts_within (chunk_start chunk_end : Z) (sub : subtitle) : bool :=
  Qle_bool (inject_Z chunk_start) (sub_start sub)
  && Qltb (sub_start sub) (inject_Z chunk_end).

Definition overlaps_with (chunk_start chunk_end : Z) (sub : subtitle) : bool :=
  Qltb (inject_Z chunk_start) (sub_end sub)
  && Qltb (sub_start sub) (inject_Z chunk_end).

Definition in_chunk (chunk_start chunk_end : Z) (sub : subtitle) : bool :=
  starts_within chunk_start chunk_end sub
  || overlaps_with chunk_start chunk_end sub.

(** The variables the [while] loop assigns. *)
Record loop_state : Type := mk_state {
  chunks : list chunk;
  chunk_start : Z;
  chunk_number : Z
}.

Section Loop.

Variable subtitles : list subtitle.
Variables chunk_duration overlap_duration : Z.
Variable total_duration : Q.

(** Lines 80-85: the inner [for] loop appends in source order. *)
Definition select (chunk_start chunk_end : Z) : list subtitle :=
  filter (in_chunk chunk_start chunk_end) subtitles.

(** Lines 92-99. *)
Definition new_chunk (n cs : Z) (sub : subtitle) (rest : list subtitle)
  : chunk :=
  {| ch_number := n;
     start_time := py_min (sub_start sub) (map sub_start rest);
     end_time := py_max (sub_end sub) (map sub_end rest);
     ch_subtitles := sub :: rest;
     planned_start := cs;
     planned_end := cs + chunk_duration |}.

(** Lines 74-108: one pass through the body; the flag is the [break]. *)
Definition loop_body (st : loop_state) : loop_state * bool :=
  let chunk_end := chunk_start st + chunk_duration in
  let next_chunk_start := chunk_end - overlap_duration in
  let chunk_subtitles := select (chunk_start st) chunk_end in
  let '(chunks', chunk_number') :=
    match chunk_subtitles with
    | [] => (chunks st, chunk_number st)
    | sub :: rest =>
        (chunks st ++ [new_chunk (chunk_number st) (chunk_start st) sub rest],
         chunk_number st + 1)
    end in
  ({| chunks := chunks';
      chunk_start := next_chunk_start;
      chunk_number := chunk_number' |},
   Qle_bool total_duration (inject_Z next_chunk_start)).

(** Lines 73-108. *)
Fixpoint while_loop (fuel : nat) (st : loop_state) : option loop_state :=
  match fuel with
  | O => None
  | S fuel' =>
      if Qltb (inject_Z (chunk_start st)) total_duration then
        let '(st', stop) := loop_body st in
        if stop then Some st' else while_loop fuel' st'
      else Some st
  end.

End Loop.

(** Lines 59-110.  The two durations arrive in minutes. *)
Definition split_srt_by_time (fuel : nat) (subtitles : list subtitle)
    (chunk_duration_minutes overlap_minutes : Z) : option (list chunk) :=
  let chunk_duration := chunk_duration_minutes * 60 in
  let overlap_duration := overlap_minutes * 60 in
  match subtitles with
  | [] => Some []
  | sub :: rest =>
      let total_duration := py_max (sub_end sub) (map sub_end rest) in
      option_map chunks
        (while_loop subtitles chunk_duration overlap_duration total_duration
           fuel {| chunks := []; chunk_start := 0; chunk_number := 1 |})
  end.

(** [max(sub['end'] for sub in subtitles)], zero for the empty list (where
    the source never computes it). *)
Definition total_duration_of (subtitles : list subtitle) : Q :=
  match subtitles with
  | [] => 0%Q
  | sub :: rest => py_max (sub_end sub) (map sub_end rest)
  end.

(** ** Python [str] operations used by the parser *)

Local Open Scope string_scope.

(** [str.isspace] on the characters below 128: tab to carriage return, the
    four separators 28 to 31, and the space. *)
Definition is_space (c : ascii) : bool :=
  let n := nat_of_ascii c in
  ((9 <=? n) && (n <=? 13) || (28 <=? n) && (n <=? 32))%nat.

Fixpoint lstrip (s : string) : string :=
  match s with
  | EmptyString => EmptyString
  | String c s' => if is_space c then lstrip s' else s
  end.

Fixpoint rstrip (s : string) : string :=
  match s with
  | EmptyString => EmptyString
  | String c s' =>
      match rstrip s' with
      | EmptyString => if is_space c then EmptyString else String c EmptyString
      | r => String c r
      end
  end.

(** [s.strip()] *)
Definition strip (s : string) : string := rstrip (lstrip s).

(** [s.split(sep)] for a non-empty [sep]: the text is scanned from the left,
    a match of [sep] closes the current part and its characters are skipped.
    The result is the current part and the parts after it. *)
Fixpoint split_parts (sep : string) (skip : nat) (s : string)
  : string * list string :=
  match s with
  | EmptyString => (EmptyString, [])
  | String c s' =>
      match skip with
      | S k => split_parts sep k s'
      | O =>
          if prefix sep s then
            let '(p, ps) := split_parts sep (String.length sep - 1) s' in
            (EmptyString, p :: ps)
          else
            let '(p, ps) := split_parts sep 0 s' in
            (String c p, ps)
      end
  end.

Definition split (sep s : string) : list string :=
  let '(p, ps) := split_parts sep 0 s in p :: ps.

(** [needle in s] *)
Fixpoint contains (needle s : string) : bool :=
  prefix needle s
  || match s with
     | EmptyString => false
     | String _ s' => contains needle s'
     end.

(** [sep.join(parts)] *)
Fixpoint join (sep : string) (parts : list string) : string :=
  match parts with
  | [] => EmptyString
  | [p] => p
  | p :: ps => p ++ sep ++ join sep ps
  end.

(** ** [int(str)] *)

Definition is_digit (c : ascii) : bool :=
  let n := nat_of_ascii c in ((48 <=? n) && (n <=? 57))%nat.

Definition digit_value (c : ascii) : Z :=
  Z.of_nat (nat_of_ascii c - 48).

(** The digits of a literal, most significant first; one underscore may
    stand between two digits.  [after_digit] tells whether the character
    before was a digit. *)
Fixpoint int_digits (acc : Z) (after_digit : bool) (s : string) : option Z :=
  match s with
  | EmptyString => if after_digit then Some acc else None
  | String c s' =>
      if is_digit c then int_digits (acc * 10 + digit_value c) true s'
      else if (c =? "_")%char then
        if after_digit then int_digits acc false s' else None
      else None
  end.

(** [int(s)] in base ten: surrounding white space, an optional sign, the
    digits.  [None] is [ValueError].  (No bound on the number of digits.) *)
Definition py_int (s : string) : option Z :=
  match strip s with
  | EmptyString => None
  | String c r =>
      if (c =? "-")%char then option_map Z.opp (int_digits 0 false r)
      else if (c =? "+")%char then int_digits 0 false r
      else int_digits 0 false (String c r)
  end.

(** The number a string of digits denotes, read after the number [acc]. *)
Fixpoint decimal_value_from (acc : Z) (s : string) : Z :=
  match s with
  | EmptyString => acc
  | String c s' => decimal_value_from (acc * 10 + digit_value c) s'
  end.

Definition decimal_value (s : string) : Z := decimal_value_from 0 s.

Fixpoint all_chars (p : ascii -> bool) (s : string) : bool :=
  match s with
  | EmptyString => true
  | String c s' => p c && all_chars p s'
  end.

(** A non-empty string of decimal digits, of any length. *)
Definition digit_string (s : string) : Prop :=
  s <> EmptyString /\ all_chars is_digit s = true.

(** The characters [format_d] writes, and the characters other than [c]. *)
Definition is_field_char (a : ascii) : bool := is_digit a || (a =? "-")%char.

Definition differs (c a : ascii) : bool := negb (a =? c)%char.

(** ** Exceptions *)

Inductive exn : Type := ValueError.

Inductive result (A : Type) : Type :=
| Ok (a : A)
| Raise (e : exn).

Arguments Ok {A} a.
Arguments Raise {A} e.

Definition bind {A B : Type} (r : result A) (k : A -> result B) : result B :=
  match r with
  | Ok a => k a
  | Raise e => Raise e
  end.

Notation "x <- r ;; k" := (bind r (fun x => k))
  (at level 61, r at next level, right associativity).

(** [int(s)] as a computation that raises. *)
Definition int_of_str (s : string) : result Z :=
  match py_int s with
  | Some z => Ok z
  | None => Raise ValueError
  end.

(** ** [parse_srt_time] *)

(** Line 12: [h * 3600 + m * 60 + s + ms / 1000]; the first three terms are
    [int]s, [/] is true division. *)
Definition srt_seconds (h m s ms : Z) : Q :=
  (inject_Z (h * 3600 + m * 60 + s) + inject_Z ms / 1000)%Q.

(** Lines 6-12.  Unpacking a list of the wrong length is a [ValueError]. *)
Definition parse_srt_time (time_str : string) : result Q :=
  match split "," time_str with
  | [time_part; ms_part] =>
      match split ":" time_part with
      | [hs; mins; ss] =>
          h <- int_of_str hs ;;
          m <- int_of_str mins ;;
          s <- int_of_str ss ;;
          ms <- int_of_str ms_part ;;
          Ok (srt_seconds h m s ms)
      | _ => Raise ValueError
      end
  | _ => Raise ValueError
  end.

(** ** [parse_srt_file] *)

Definition newline : string := String (ascii_of_nat 10) EmptyString.

(** What one pass of the [for] loop of lines 31-55 does with a block: it
    raises, it appends nothing, or it appends one subtitle. *)
Definition parse_block (block : string) : result (option subtitle) :=
  let lines := split newline (strip block) in
  if (3 <=? List.length lines)%nat then
    match py_int (nth 0 lines EmptyString) with
    | None => Ok None
    | Some number =>
        let timestamp_line := nth 1 lines EmptyString in
        if contains " --> " timestamp_line then
          match split " --> " timestamp_line with
          | [start_time; end_time] =>
              start_seconds <- parse_srt_time (strip start_time) ;;
              end_seconds <- parse_srt_time (strip end_time) ;;
              let text := join newline (skipn 2 lines) in
              Ok (Some {| sub_number := number;
                          sub_start := start_seconds;
                          sub_end := end_seconds;
                          sub_text := text |})
          | _ => Raise ValueError
          end
        else Ok None
    end
  else Ok None.

(** The three checks of lines 33, 36 and 42 on a block. *)
Definition structurally_valid (block : string) : bool :=
  let lines := split newline (strip block) in
  (3 <=? List.length lines)%nat
  && match py_int (nth 0 lines EmptyString) with
     | Some _ => true
     | None => false
     end
  && contains " --> " (nth 1 lines EmptyString).

(** The [for] loop of lines 31-55 from a given value of [subtitles]. *)
Fixpoint parse_blocks (blocks : list string) (subtitles : list subtitle)
  : result (list subtitle) :=
  match blocks with
  | [] => Ok subtitles
  | block :: rest =>
      r <- parse_block block ;;
      parse_blocks rest
        (match r with
         | Some sub => subtitles ++ [sub]
         | None => subtitles
         end)
  end.

(** Lines 22-57, from the text read from the file. *)
Definition parse_srt_file (content : string) : result (list subtitle) :=
  let blocks := split (newline ++ newline) (strip content) in
  parse_blocks blocks [].

(** ** [seconds_to_srt_time] *)

(** [a // b] and [a % b] on floats, for a positive [b], and [int(x)],
    which truncates toward zero. *)
Definition float_floordiv (a b : Q) : Q := inject_Z (Qfloor (a / b)).

Definition float_mod (a b : Q) : Q := (a - b * inject_Z (Qfloor (a / b)))%Q.

Definition int_of_float (x : Q) : Z := Z.quot (Qnum x) (Zpos (Qden x)).

Definition digit_char (d : Z) : ascii := ascii_of_nat (48 + Z.to_nat d).

(** The decimal digits of a natural number, written in front of [acc]. *)
Fixpoint dec_digits (fuel : nat) (n : Z) (acc : string) : string :=
  let acc' := String (digit_char (n mod 10)) acc in
  match fuel with
  | O => acc'
  | S fuel' => if (n / 10 =? 0)%Z then acc' else dec_digits fuel' (n / 10) acc'
  end.

Definition str_of_nat (n : Z) : string :=
  dec_digits (Z.to_nat (Z.log2 n)) n EmptyString.

Fixpoint zeros (k : nat) : string :=
  match k with
  | O => EmptyString
  | S k' => String "0" (zeros k')
  end.

Definition zfill (width : nat) (digits : string) : string :=
  zeros (width - String.length digits) ++ digits.

(** [f"{z:0{width}d}"]: the sign comes first and counts in the width. *)
Definition format_d (width : nat) (z : Z) : string :=
  if (z <? 0)%Z then String "-" (zfill (width - 1) (str_of_nat (- z)))
  else zfill width (str_of_nat z).

(** Lines 16-19. *)
Definition hours_of (seconds : Q) : Z :=
  int_of_float (float_floordiv seconds 3600).
Definition minutes_of (seconds : Q) : Z :=
  int_of_float (float_floordiv (float_mod seconds 3600) 60).
Definition secs_of (seconds : Q) : Z :=
  int_of_float (float_mod seconds 60).
Definition ms_of (seconds : Q) : Z :=
  int_of_float (float_mod seconds 1 * 1000).

(** Lines 14-20. *)
Definition seconds_to_srt_time (seconds : Q) : string :=
  format_d 2 (hours_of seconds) ++ ":" ++ format_d 2 (minutes_of seconds)
  ++ ":" ++ format_d 2 (secs_of seconds) ++ "," ++ format_d 3 (ms_of seconds).

(** ** The windows as a function of the planned starts *)

Section Windows.

Variable subtitles : list subtitle.
Variables chunk_duration overlap_duration : Z.

(** The chunks appended while the loop visits the planned starts [starts],
    the first of them numbered [n]. *)
Fixpoint emit (n : Z) (starts : list Z) : list chunk :=
  match starts with
  | [] => []
  | cs :: tl =>
      match select subtitles cs (cs + chunk_duration) with
      | [] => emit n tl
      | sub :: rest =>
          new_chunk chunk_duration n cs sub rest :: emit (n + 1) tl
      end
  end.

(** The planned starts of [m] consecutive passes, the first at [cs]. *)
Fixpoint starts_from (m : nat) (cs : Z) : list Z :=
  match m with
  | O => []
  | S m' => cs :: starts_from m' (cs + chunk_duration - overlap_duration)
  end.

End Windows.

(** An entry is in some chunk of the list. *)
Definition covered (cs : list chunk) (sub : subtitle) : Prop :=
  exists c, In c cs /\ In sub (ch_subtitles c).

(** ** Concrete inputs *)

Definition ent (n : Z) (s e : Q) : subtitle :=
  {| sub_number := n; sub_start := s; sub_end := e; sub_text := "x" |}.

(** Three entries at [0,5), [10,15) and [40,45) seconds. *)
Definition scenario : list subtitle :=
  [ent 1 0 5; ent 2 10 15; ent 3 40 45]%Q.

(** The same three entries with minutes for seconds. *)
Definition scenario_minutes : list subtitle :=
  [ent 1 0 300; ent 2 600 900; ent 3 2400 2700]%Q.

(** A file of three blocks; in [srt_text_abc] the second block starts
    with the line [abc], in [srt_text_bad] its end time has a full stop for
    the comma, in [srt_text_short] its start time is [1:2:3,4]. *)
Definition srt_block (first_line times body : string) : string :=
  first_line ++ newline ++ times ++ newline ++ body.

Definition srt_text (second_first_line second_times : string) : string :=
  srt_block "1" "00:00:01,000 --> 00:00:02,500" "one"
  ++ newline ++ newline
  ++ srt_block second_first_line second_times "two"
  ++ newline ++ newline
  ++ srt_block "3" "00:00:05,000 --> 00:00:06,000" ("three" ++ newline ++ "3")
  ++ newline.

Definition srt_text_ok : string := srt_text "2" "00:00:03,000 --> 00:00:04,000".
Definition srt_text_abc : string :=
  srt_text "abc" "00:00:03,000 --> 00:00:04,000".
Definition srt_text_bad : string := srt_text "2" "00:00:03,000 --> 00:00:04.000".
Definition srt_text_short : string := srt_text "2" "1:2:3,4 --> 1:2:4,5".

(** Fuel that lets the loop stop whenever the step is positive: the loop
    passes through its condition at most once per second of the total
    duration, and once more. *)
Definition enough_fuel (subtitles : list subtitle) : nat :=
  S (Z.to_nat (Qceiling (total_duration_of subtitles))).

(** ** [save_chunk_as_srt] *)

(** [f"{i}"] for an [int]. *)
Definition str_of_int (z : Z) : string :=
  if (z <? 0)%Z then String "-" (str_of_nat (- z)) else str_of_nat z.

(** Lines 116-120: the three [file.write] calls for the entry numbered
    [i]. *)
Definition write_entry (i : Z) (subtitle : subtitle) : string :=
  let start_time := seconds_to_srt_time (sub_start subtitle) in
  let end_time := seconds_to_srt_time (sub_end subtitle) in
  (str_of_int i ++ newline)
  ++ (start_time ++ " --> " ++ end_time ++ newline)
  ++ (sub_text subtitle ++ newline ++ newline).

(** Lines 115-120: the loop over [enumerate(..., i)]. *)
Fixpoint write_entries (i : Z) (subtitles : list subtitle) : string :=
  match subtitles with
  | [] => EmptyString
  | subtitle :: rest =>
      write_entry i subtitle ++ write_entries (i + 1)%Z rest
  end.

(** Lines 112-120: the text written to [output_filename]. *)
Definition save_chunk_as_srt (chunk : chunk) : string :=
  write_entries 1 (ch_subtitles chunk).

(** ** [main]: the files it writes *)

(** The three values [--format] admits. *)
Inductive output_format : Type := format_srt | format_txt | format_both.

(** One call of a writer by [main]: the function, the chunk and the
    [output_filename]. *)
Inductive save_call : Type :=
| call_save_chunk_as_srt (chunk : chunk) (output_filename : string)
| call_save_chunk_as_txt (chunk : chunk) (output_filename : string).

Definition output_filename_of (call : save_call) : string :=
  match call with
  | call_save_chunk_as_srt _ f => f
  | call_save_chunk_as_txt _ f => f
  end.

(** Lines 209-215 for one chunk. *)
Definition save_calls_of (output_format : output_format)
    (output_dir : string) (chunk : chunk) : list save_call :=
  let chunk_num := ch_number chunk in
  ((match output_format with
    | format_srt | format_both =>
        [call_save_chunk_as_srt chunk
           (output_dir ++ "/chunk_" ++ format_d 2 chunk_num ++ ".srt")]
    | format_txt => []
    end)
   ++
   (match output_format with
    | format_txt | format_both =>
        [call_save_chunk_as_txt chunk
           (output_dir ++ "/chunk_" ++ format_d 2 chunk_num ++ ".txt")]
    | format_srt => []
    end))%list.

(** Lines 138-215, as the list of writer calls [main] makes, in order.
    [input] is the text of the input file, [None] when the file is
    missing; [output_dir] is the directory chosen at lines 160-164, from
    [--output-dir] or from the name of the input.  The messages printed are
    left out.  [None] means the fuel of the partitioner ran out. *)
Definition main (fuel : nat) (input : option string)
    (chunk_duration_minutes overlap_minutes : Z)
    (output_format : output_format) (output_dir : string)
  : option (list save_call) :=
  match input with
  | None => Some []
  | Some content =>
      match parse_srt_file content with
      | Raise _ => Some []
      | Ok [] => Some []
      | Ok subtitles =>
          match split_srt_by_time fuel subtitles
                  chunk_duration_minutes overlap_minutes with
          | None => None
          | Some chunks =>
              let output_dir := "session_chunks" in
              Some (flat_map (save_calls_of output_format output_dir) chunks)
          end
      end
  end.

(** ** What a saved chunk gives when it is parsed again *)

(** The time the code [seconds_to_srt_time] writes denotes. *)
Definition written_time (seconds : Q) : Q :=
  srt_seconds (hours_of seconds) (minutes_of seconds) (secs_of seconds)
    (ms_of seconds).

Fixpoint reread (i : Z) (subtitles : list subtitle) : list subtitle :=
  match subtitles with
  | [] => []
  | subtitle :: rest =>
      {| sub_number := i;
         sub_start := written_time (sub_start subtitle);
         sub_end := written_time (sub_end subtitle);
         sub_text := sub_text subtitle |} :: reread (i + 1)%Z rest
  end.

(** Every line feed of the text is followed by a character that is not a
    line feed: the text has no empty line inside and no line feed at its
    end. *)
Fixpoint tight (s : string) : bool :=
  match s with
  | EmptyString => true
  | String a s' =>
      (if (a =? "010")%char then
         match s' with
         | EmptyString => false
         | String b _ => negb (b =? "010")%char
         end
       else true)
      && tight s'
  end.

(** No two line feeds stand side by side in the text. *)
Fixpoint no_blank_line (s : string) : bool :=
  match s with
  | EmptyString => true
  | String a s' =>
      match s' with
      | EmptyString => true
      | String b _ => negb ((a =? "010")%char && (b =? "010")%char)
      end
      && no_blank_line s'
  end.

(** A text that a block can carry: not empty, no line feed at its head, no
    empty line inside, no white space at its end. *)
Definition block_text (s : string) : Prop :=
  s <> EmptyString /\ prefix newline s = false /\ tight s = true /\
  rstrip s = s.

(** The blocks [save_chunk_as_srt] writes, without the two line feeds that
    end each of them. *)
Fixpoint written_blocks (i : Z) (subtitles : list subtitle) : list string :=
  match subtitles with
  | [] => []
  | subtitle :: rest =>
      srt_block (str_of_int i)
        (seconds_to_srt_time (sub_start subtitle) ++ " --> "
         ++ seconds_to_srt_time (sub_end subtitle))
        (sub_text subtitle)
      :: written_blocks (i + 1)%Z rest
  end.

(** A chunk of two entries, the second with two lines of text. *)
Definition sample_chunk : chunk :=
  {| ch_number := 7; start_time := 1; end_time := 3725.5;
     ch_subtitles :=
       [ {| sub_number := 41; sub_start := 1; sub_end := 2.5;
            sub_text := "one" |};
         {| sub_number := 42; sub_start := 3723.0049; sub_end := 3725.5;
            sub_text := " two" ++ newline ++ "more" |} ];
     planned_start := 0; planned_end := 1800 |}.

(** * Properties *)

Local Open Scope Z_scope.
Local Open Scope list_scope.

(** ** Comparisons *)

Lemma Qltb_true (a b : Q) : Qltb a b = true <-> (a < b)%Q.
Proof.
  unfold Qltb. rewrite negb_true_iff.
  split; intro H.
  - apply Qnot_le_lt. intro Hle. apply Qle_bool_iff in Hle. congruence.
  - destruct (Qle_bool b a) eqn:E; [|reflexivity].
    apply Qle_bool_iff in E. exfalso. apply (Qlt_not_le _ _ H E).
Qed.

Lemma Qltb_false (a b : Q) : Qltb a b = false <-> (b <= a)%Q.
Proof.
  unfold Qltb. rewrite negb_false_iff. apply Qle_bool_iff.
Qed.

Lemma starts_within_true cs ce sub :
  starts_within cs ce sub = true <->
  (inject_Z cs <= sub_start sub /\ sub_start sub < inject_Z ce)%Q.
Proof.
  unfold starts_within. rewrite andb_true_iff, Qle_bool_iff, Qltb_true.
  reflexivity.
Qed.

Lemma overlaps_with_true cs ce sub :
  overlaps_with cs ce sub = true <->
  (inject_Z cs < sub_end sub /\ sub_start sub < inject_Z ce)%Q.
Proof.
  unfold overlaps_with. rewrite andb_true_iff, !Qltb_true. reflexivity.
Qed.

Lemma in_chunk_true cs ce sub :
  in_chunk cs ce sub = true <->
  ((inject_Z cs <= sub_start sub \/ inject_Z cs < sub_end sub)
   /\ sub_start sub < inject_Z ce)%Q.
Proof.
  unfold in_chunk.
  rewrite orb_true_iff, starts_within_true, overlaps_with_true. tauto.
Qed.

(** ** [max] and [min] *)

Lemma py_max_ge_init xs : forall x, (x <= py_max x xs)%Q.
Proof.
  unfold py_max. induction xs as [|y ys IH]; intro x; simpl.
  - apply Qle_refl.
  - destruct (Qltb x y) eqn:E.
    + apply Qltb_true in E. eapply Qle_trans; [apply Qlt_le_weak, E | apply IH].
    + apply IH.
Qed.

Lemma py_max_upper xs : forall x y, In y (x :: xs) -> (y <= py_max x xs)%Q.
Proof.
  induction xs as [|z zs IH]; intros x y [Hy|Hy].
  - subst. apply Qle_refl.
  - destruct Hy.
  - subst. apply py_max_ge_init.
  - unfold py_max in *. simpl. destruct (Qltb x z) eqn:E.
    + apply IH. exact Hy.
    + apply Qltb_false in E. destruct Hy as [Hy|Hy].
      * subst. eapply Qle_trans; [exact E | apply (py_max_ge_init zs x)].
      * apply IH. right. exact Hy.
Qed.

Lemma py_max_In xs : forall x, In (py_max x xs) (x :: xs).
Proof.
  unfold py_max. induction xs as [|z zs IH]; intro x; simpl.
  - left. reflexivity.
  - destruct (Qltb x z).
    + right. apply IH.
    + destruct (IH x) as [H|H]; [left; exact H | right; right; exact H].
Qed.

Lemma py_min_le_init xs : forall x, (py_min x xs <= x)%Q.
Proof.
  unfold py_min. induction xs as [|y ys IH]; intro x; simpl.
  - apply Qle_refl.
  - destruct (Qltb y x) eqn:E.
    + apply Qltb_true in E. eapply Qle_trans; [apply IH | apply Qlt_le_weak, E].
    + apply IH.
Qed.

Lemma py_min_lower xs : forall x y, In y (x :: xs) -> (py_min x xs <= y)%Q.
Proof.
  induction xs as [|z zs IH]; intros x y [Hy|Hy].
  - subst. apply Qle_refl.
  - destruct Hy.
  - subst. apply py_min_le_init.
  - unfold py_min in *. simpl. destruct (Qltb z x) eqn:E.
    + apply IH. exact Hy.
    + apply Qltb_false in E. destruct Hy as [Hy|Hy].
      * subst. eapply Qle_trans; [apply (py_min_le_init zs x) | exact E].
      * apply IH. right. exact Hy.
Qed.

Lemma py_min_In xs : forall x, In (py_min x xs) (x :: xs).
Proof.
  unfold py_min. induction xs as [|z zs IH]; intro x; simpl.
  - left. reflexivity.
  - destruct (Qltb z x).
    + right. apply IH.
    + destruct (IH x) as [H|H]; [left; exact H | right; right; exact H].
Qed.

Lemma total_duration_upper subs sub :
  In sub subs -> (sub_end sub <= total_duration_of subs)%Q.
Proof.
  destruct subs as [|s0 rest]; [intros []|].
  intro H. unfold total_duration_of.
  apply py_max_upper. change (In (sub_end sub) (map sub_end (s0 :: rest))).
  apply in_map. exact H.
Qed.

Lemma total_duration_attained subs :
  subs <> [] ->
  exists sub, In sub subs /\ sub_end sub = total_duration_of subs.
Proof.
  destruct subs as [|s0 rest]; [congruence|]. intros _.
  unfold total_duration_of.
  pose proof (py_max_In (map sub_end rest) (sub_end s0)) as H.
  change (In (py_max (sub_end s0) (map sub_end rest))
             (map sub_end (s0 :: rest))) in H.
  apply in_map_iff in H. destruct H as [sub [H1 H2]].
  exists sub. split; [exact H2 | exact H1].
Qed.

(** ** The loop *)

Section LoopFacts.

Variable subs : list subtitle.
Variables D O : Z.
Variable T : Q.

Local Abbreviation body := (loop_body subs D O T).
Local Abbreviation loop := (while_loop subs D O T).

Lemma loop_body_start st :
  chunk_start (fst (body st)) = chunk_start st + D - O.
Proof.
  unfold loop_body. destruct (select subs _ _); reflexivity.
Qed.

Lemma loop_body_stop st :
  snd (body st) = Qle_bool T (inject_Z (chunk_start st + D - O)).
Proof.
  unfold loop_body. destruct (select subs _ _); reflexivity.
Qed.

Lemma loop_body_empty st :
  select subs (chunk_start st) (chunk_start st + D) = [] ->
  chunks (fst (body st)) = chunks st /\
  chunk_number (fst (body st)) = chunk_number st.
Proof.
  intro H. unfold loop_body. rewrite H. split; reflexivity.
Qed.

Lemma loop_body_nonempty st sub rest :
  select subs (chunk_start st) (chunk_start st + D) = sub :: rest ->
  chunks (fst (body st)) =
    chunks st ++ [new_chunk D (chunk_number st) (chunk_start st) sub rest] /\
  chunk_number (fst (body st)) = chunk_number st + 1.
Proof.
  intro H. unfold loop_body. rewrite H. split; reflexivity.
Qed.

Lemma loop_body_emit st :
  chunks (fst (body st)) =
    chunks st ++ emit subs D (chunk_number st) [chunk_start st].
Proof.
  simpl. destruct (select subs (chunk_start st) (chunk_start st + D)) eqn:E.
  - rewrite (proj1 (loop_body_empty st E)). symmetry. apply app_nil_r.
  - rewrite (proj1 (loop_body_nonempty st _ _ E)). reflexivity.
Qed.

(** The loop visits consecutive planned starts below [T], appends their
    chunks, and leaves [chunk_start] at or after [T]. *)
Lemma while_loop_spec fuel : forall st st',
  loop fuel st = Some st' ->
  exists m : nat,
    chunks st' =
      chunks st ++ emit subs D (chunk_number st)
                     (starts_from D O m (chunk_start st)) /\
    chunk_start st' = chunk_start st + Z.of_nat m * (D - O) /\
    (forall c, In c (starts_from D O m (chunk_start st)) ->
               (inject_Z c < T)%Q) /\
    (T <= inject_Z (chunk_start st'))%Q.
Proof.
  induction fuel as [|fuel IH]; intros st st' H; [discriminate|].
  simpl in H.
  destruct (Qltb (inject_Z (chunk_start st)) T) eqn:Hc.
  - destruct (body st) as [st1 stop] eqn:Hb.
    pose proof (loop_body_start st) as Hs.
    pose proof (loop_body_stop st) as Hq.
    pose proof (loop_body_emit st) as He.
    rewrite Hb in Hs, Hq, He. simpl in Hs, Hq, He.
    apply Qltb_true in Hc.
    destruct stop.
    + inversion H; subst st'. exists 1%nat.
      split; [exact He|]. split; [rewrite Hs; lia|].
      split.
      * intros c [Hin|[]]. subst c. exact Hc.
      * rewrite Hs. apply Qle_bool_iff. symmetry. exact Hq.
    + destruct (IH _ _ H) as [m [H1 [H2 [H3 H4]]]].
      exists (S m). rewrite Hs in H1, H2, H3.
      split; [|split; [|split]].
      * rewrite H1, He. rewrite <- app_assoc. f_equal.
        simpl.
        destruct (select subs (chunk_start st) (chunk_start st + D)) eqn:E.
        -- pose proof (proj2 (loop_body_empty st E)) as Hn.
           rewrite Hb in Hn. simpl in Hn. rewrite Hn. reflexivity.
        -- pose proof (proj2 (loop_body_nonempty st _ _ E)) as Hn.
           rewrite Hb in Hn. simpl in Hn. rewrite Hn. reflexivity.
      * rewrite H2. lia.
      * intros c [Hin|Hin]; [subst c; exact Hc | apply H3; exact Hin].
      * exact H4.
  - inversion H; subst st'. exists 0%nat.
    split; [simpl; symmetry; apply app_nil_r|].
    split; [lia|].
    split; [intros c []|].
    apply Qltb_false. exact Hc.
Qed.

(** With a positive step the loop stops, whatever the state. *)
Lemma while_loop_terminates fuel : forall st,
  0 < D - O ->
  (Z.to_nat (Qceiling T - chunk_start st) < fuel)%nat ->
  exists st', loop fuel st = Some st'.
Proof.
  induction fuel as [|fuel IH]; intros st Hstep Hf; [lia|].
  simpl.
  destruct (Qltb (inject_Z (chunk_start st)) T) eqn:Hc.
  - destruct (body st) as [st1 stop] eqn:Hb.
    destruct stop; [eexists; reflexivity|].
    apply IH; [exact Hstep|].
    pose proof (loop_body_start st) as Hs. rewrite Hb in Hs. simpl in Hs.
    rewrite Hs.
    apply Qltb_true in Hc.
    assert (chunk_start st < Qceiling T) as Hlt.
    { rewrite Zlt_Qlt. eapply Qlt_le_trans; [exact Hc | apply Qle_ceiling]. }
    lia.
  - eexists; reflexivity.
Qed.

(** With a step that is not positive the loop never stops once entered. *)
Lemma while_loop_diverges fuel : forall st,
  D - O <= 0 ->
  (inject_Z (chunk_start st) < T)%Q ->
  loop fuel st = None.
Proof.
  induction fuel as [|fuel IH]; intros st Hstep Hc; [reflexivity|].
  simpl.
  assert (Qltb (inject_Z (chunk_start st)) T = true) as ->
    by (apply Qltb_true; exact Hc).
  destruct (body st) as [st1 stop] eqn:Hb.
  pose proof (loop_body_start st) as Hs.
  pose proof (loop_body_stop st) as Hq.
  rewrite Hb in Hs, Hq. simpl in Hs, Hq.
  assert (inject_Z (chunk_start st1) < T)%Q as Hc1.
  { eapply Qle_lt_trans; [|exact Hc]. rewrite <- Zle_Qle. lia. }
  destruct stop.
  - symmetry in Hq. apply Qle_bool_iff in Hq. rewrite <- Hs in Hq.
    exfalso. apply (Qlt_not_le _ _ Hc1 Hq).
  - apply IH; assumption.
Qed.

(** More fuel does not change a result. *)
Lemma while_loop_more_fuel fuel : forall st st' fuel',
  loop fuel st = Some st' -> (fuel <= fuel')%nat -> loop fuel' st = Some st'.
Proof.
  induction fuel as [|fuel IH]; intros st st' fuel' H Hle; [discriminate|].
  destruct fuel' as [|fuel']; [lia|].
  simpl in *.
  destruct (Qltb (inject_Z (chunk_start st)) T); [|exact H].
  destruct (body st) as [st1 stop].
  destruct stop; [exact H|].
  apply IH; [exact H | lia].
Qed.

End LoopFacts.

(** ** The emitted chunks *)

Section WindowFacts.

Variable subs : list subtitle.
Variables D O : Z.

Local Abbreviation sel := (fun cs => select subs cs (cs + D)).

Lemma select_In cs ce sub :
  In sub (select subs cs ce) <-> In sub subs /\ in_chunk cs ce sub = true.
Proof. unfold select. apply filter_In. Qed.

Lemma starts_from_In m : forall c0 c,
  In c (starts_from D O m c0) <->
  exists k : nat, (k < m)%nat /\ c = c0 + Z.of_nat k * (D - O).
Proof.
  induction m as [|m IH]; intros c0 c; simpl.
  - split; [intros [] | intros [k [Hk _]]; lia].
  - rewrite IH. split.
    + intros [H | [k [Hk Hc]]].
      * exists 0%nat. split; [lia | subst; lia].
      * exists (S k). split; [lia | subst; lia].
    + intros [[|k] [Hk Hc]].
      * left. lia.
      * right. exists k. split; [lia | subst; lia].
Qed.

Lemma starts_from_length m : forall c0,
  List.length (starts_from D O m c0) = m.
Proof. induction m as [|m IH]; intro c0; simpl; [|rewrite IH]; reflexivity. Qed.

(** A suffix of a run of planned starts is a run of planned starts. *)
Lemma starts_from_suffix m : forall c0 pre suf,
  starts_from D O m c0 = pre ++ suf ->
  suf = starts_from D O (m - List.length pre)
          (c0 + Z.of_nat (List.length pre) * (D - O)).
Proof.
  induction m as [|m IH]; intros c0 pre suf H; simpl in H.
  - destruct pre; [|discriminate]. simpl in H. subst suf. reflexivity.
  - destruct pre as [|p pre].
    + simpl in H. subst suf.
      replace (c0 + Z.of_nat (List.length (@nil Z)) * (D - O)) with c0
        by (simpl; lia).
      reflexivity.
    + simpl in H. injection H as _ H. apply IH in H. rewrite H.
      simpl List.length. f_equal. lia.
Qed.

(** Every emitted chunk is the chunk of one visited planned start. *)
Lemma emit_In starts : forall n c,
  In c (emit subs D n starts) ->
  exists cs sub rest,
    In cs starts /\ sel cs = sub :: rest /\
    c = new_chunk D (ch_number c) cs sub rest.
Proof.
  induction starts as [|cs tl IH]; intros n c H; simpl in H; [destruct H|].
  destruct (select subs cs (cs + D)) as [|sub rest] eqn:E.
  - destruct (IH _ _ H) as [cs' [sub' [rest' [H1 H2]]]].
    exists cs', sub', rest'. split; [right; exact H1 | exact H2].
  - destruct H as [H|H].
    + exists cs, sub, rest. subst c. simpl.
      split; [left; reflexivity|]. split; [exact E | reflexivity].
    + destruct (IH _ _ H) as [cs' [sub' [rest' [H1 H2]]]].
      exists cs', sub', rest'. split; [right; exact H1 | exact H2].
Qed.

(** Every visited planned start with a selection has its chunk. *)
Lemma emit_complete starts : forall n cs sub rest,
  In cs starts -> sel cs = sub :: rest ->
  exists n', In (new_chunk D n' cs sub rest) (emit subs D n starts).
Proof.
  induction starts as [|c tl IH]; intros n cs sub rest Hin Hsel;
    [destruct Hin|].
  simpl. destruct Hin as [Hin|Hin].
  - subst c. simpl in Hsel. rewrite Hsel. exists n. left. reflexivity.
  - destruct (IH n cs sub rest Hin Hsel) as [n1 H1].
    destruct (IH (n + 1) cs sub rest Hin Hsel) as [n2 H2].
    destruct (select subs c (c + D)).
    + exists n1. exact H1.
    + exists n2. right. exact H2.
Qed.

(** Chunks are numbered consecutively from [n]. *)
Lemma emit_number starts : forall n i c,
  nth_error (emit subs D n starts) i = Some c ->
  ch_number c = n + Z.of_nat i.
Proof.
  induction starts as [|cs tl IH]; intros n i c H; simpl in H.
  - destruct i; discriminate.
  - destruct (select subs cs (cs + D)) as [|sub rest].
    + apply IH. exact H.
    + destruct i as [|i]; simpl in H.
      * inversion H. simpl. lia.
      * apply IH in H. lia.
Qed.

(** The first emitted chunk belongs to the first planned start that has a
    selection. *)
Lemma emit_head starts : forall n w l,
  emit subs D n starts = w :: l ->
  exists mid c2 s2 sub rest,
    starts = mid ++ c2 :: s2 /\
    (forall c, In c mid -> sel c = []) /\
    sel c2 = sub :: rest /\
    w = new_chunk D n c2 sub rest /\
    l = emit subs D (n + 1) s2.
Proof.
  induction starts as [|cs tl IH]; intros n w l H; simpl in H;
    [discriminate|].
  destruct (select subs cs (cs + D)) as [|sub rest] eqn:E.
  - destruct (IH _ _ _ H) as [mid [c2 [s2 [sub' [rest' [H1 [H2 H3]]]]]]].
    exists (cs :: mid), c2, s2, sub', rest'.
    split; [simpl; rewrite H1; reflexivity|].
    split; [|exact H3].
    intros c [Hc|Hc]; [subst c; exact E | apply H2; exact Hc].
  - inversion H. exists [], cs, tl, sub, rest.
    split; [reflexivity|]. split; [intros c []|].
    split; [exact E|]. split; reflexivity.
Qed.

(** Two neighbours in the output belong to two planned starts with no
    selection at the planned starts between them. *)
Lemma emit_adjacent starts : forall n l1 w1 w2 l2,
  emit subs D n starts = l1 ++ w1 :: w2 :: l2 ->
  exists s1 c1 mid c2 s2,
    starts = s1 ++ c1 :: mid ++ c2 :: s2 /\
    (forall c, In c mid -> sel c = []) /\
    ch_subtitles w1 = sel c1 /\ planned_start w1 = c1 /\
    planned_end w1 = c1 + D /\
    ch_subtitles w2 = sel c2 /\ planned_start w2 = c2 /\
    planned_end w2 = c2 + D.
Proof.
  induction starts as [|cs tl IH]; intros n l1 w1 w2 l2 H; simpl in H.
  - destruct l1; discriminate.
  - destruct (select subs cs (cs + D)) as [|sub rest] eqn:E.
    + destruct (IH _ _ _ _ _ H) as [s1 [c1 [mid [c2 [s2 [H1 H2]]]]]].
      exists (cs :: s1), c1, mid, c2, s2.
      split; [simpl; rewrite H1; reflexivity | exact H2].
    + destruct l1 as [|x l1]; simpl in H.
      * injection H as Hw Hl.
        destruct (emit_head _ _ _ _ Hl)
          as [mid [c2 [s2 [sub' [rest' [H1 [H2 [H3 [H4 _]]]]]]]]].
        exists [], cs, mid, c2, s2.
        split; [simpl; rewrite H1; reflexivity|].
        split; [exact H2|].
        subst w1 w2. simpl. rewrite E, H3. repeat split; reflexivity.
      * injection H as _ Hl.
        destruct (IH _ _ _ _ _ Hl) as [s1 [c1 [mid [c2 [s2 [H1 H2]]]]]].
        exists (cs :: s1), c1, mid, c2, s2.
        split; [simpl; rewrite H1; reflexivity | exact H2].
Qed.

End WindowFacts.

(** ** [split_srt_by_time] as a whole *)

Section SplitFacts.

Variable subs : list subtitle.
Variables cdm om : Z.

Local Abbreviation D := (cdm * 60).
Local Abbreviation O := (om * 60).
Local Abbreviation T := (total_duration_of subs).

(** A result is the chunks of the planned starts [0], [D - O], ... below
    the total duration, all of them. *)
Lemma split_spec fuel cs :
  split_srt_by_time fuel subs cdm om = Some cs ->
  exists m : nat,
    cs = emit subs D 1 (starts_from D O m 0) /\
    (forall c, In c (starts_from D O m 0) -> (inject_Z c < T)%Q) /\
    (T <= inject_Z (Z.of_nat m * (D - O)))%Q.
Proof.
  unfold split_srt_by_time, total_duration_of. destruct subs as [|s0 rest].
  - intro H. inversion H. exists 0%nat. simpl.
    split; [reflexivity|]. split; [intros c []|]. apply Qle_refl.
  - destruct (while_loop (s0 :: rest) D O _ fuel _) as [st'|] eqn:E;
      [|discriminate].
    simpl. intro H. inversion H; subst cs.
    apply while_loop_spec in E.
    destruct E as [m [H1 [H2 [H3 H4]]]]. simpl in H1, H2, H3, H4.
    exists m. split; [exact H1|]. split; [exact H3|].
    rewrite H2 in H4. exact H4.
Qed.

Lemma split_more_fuel fuel fuel' cs :
  split_srt_by_time fuel subs cdm om = Some cs -> (fuel <= fuel')%nat ->
  split_srt_by_time fuel' subs cdm om = Some cs.
Proof.
  unfold split_srt_by_time. destruct subs as [|s0 rest]; [tauto|].
  destruct (while_loop _ D O _ fuel _) as [st'|] eqn:E; [|discriminate].
  intros H Hle.
  rewrite (while_loop_more_fuel _ _ _ _ fuel _ _ fuel' E Hle). exact H.
Qed.

Lemma split_terminates :
  om < cdm ->
  exists cs, forall fuel, (enough_fuel subs <= fuel)%nat ->
    split_srt_by_time fuel subs cdm om = Some cs.
Proof.
  intro Hlt.
  assert (exists cs, split_srt_by_time (enough_fuel subs) subs cdm om
                     = Some cs) as [cs Hcs].
  { unfold split_srt_by_time, enough_fuel, total_duration_of.
    destruct subs as [|s0 rest]; [eexists; reflexivity|].
    edestruct (while_loop_terminates (s0 :: rest) D O) as [st' Hst'];
      [| | rewrite Hst'; eexists; reflexivity].
    - lia.
    - simpl chunk_start. rewrite Z.sub_0_r. apply Nat.lt_succ_diag_r. }
  exists cs. intros fuel Hf. eapply split_more_fuel; eassumption.
Qed.

Lemma split_diverges fuel :
  cdm <= om -> (0 < T)%Q -> split_srt_by_time fuel subs cdm om = None.
Proof.
  intros Hle HT. unfold split_srt_by_time.
  destruct subs as [|s0 rest]; [exfalso; apply (Qlt_irrefl 0); exact HT|].
  rewrite while_loop_diverges; [reflexivity | lia | exact HT].
Qed.

(** All planned starts below the total duration are visited. *)
Lemma visited_iff (m : nat) (c : Z) :
  0 < D - O ->
  (forall c, In c (starts_from D O m 0) -> (inject_Z c < T)%Q) ->
  (T <= inject_Z (Z.of_nat m * (D - O)))%Q ->
  In c (starts_from D O m 0) <->
  exists k, 0 <= k /\ c = k * (D - O) /\ (inject_Z c < T)%Q.
Proof.
  intros Hstep Hlt Hge. split.
  - intro Hin. pose proof (Hlt _ Hin) as Hc.
    apply starts_from_In in Hin. destruct Hin as [k [Hk Heq]].
    exists (Z.of_nat k). split; [lia|]. split; [lia | exact Hc].
  - intros [k [Hk [Heq Hc]]]. apply starts_from_In.
    assert (c < Z.of_nat m * (D - O)) as Hcm.
    { rewrite Zlt_Qlt. eapply Qlt_le_trans; eassumption. }
    assert (k < Z.of_nat m) as Hkm by (subst c; nia).
    exists (Z.to_nat k). rewrite Z2Nat.id by exact Hk.
    split; [lia | subst c; lia].
Qed.

End SplitFacts.

(** ** Which entries the chunks hold *)

Section Coverage.

Variable subs : list subtitle.
Variables D O : Z.

Lemma covered_emit n starts sub :
  covered (emit subs D n starts) sub <->
  In sub subs /\
  exists c, In c starts /\ in_chunk c (c + D) sub = true.
Proof.
  split.
  - intros [w [Hw Hsub]].
    destruct (emit_In _ _ _ _ _ Hw) as [c [s [rest [H1 [H2 H3]]]]].
    rewrite H3 in Hsub. change (In sub (s :: rest)) in Hsub.
    rewrite <- H2 in Hsub.
    apply select_In in Hsub. destruct Hsub as [Hin Hc].
    split; [exact Hin|]. exists c. split; assumption.
  - intros [Hin [c [Hc Hsel]]].
    assert (In sub (select subs c (c + D))) as Hs
      by (apply select_In; split; assumption).
    destruct (select subs c (c + D)) as [|s rest] eqn:E; [destruct Hs|].
    destruct (emit_complete subs D starts n c s rest Hc E) as [n' Hn'].
    exists (new_chunk D n' c s rest). split; [exact Hn' | exact Hs].
Qed.

(** The planned start at or before a time, on the grid of the step. *)
Lemma grid_below (q : Q) (s : Z) :
  0 < s ->
  exists k : Z,
    (inject_Z (k * s) <= q)%Q /\ (q < inject_Z (k * s + s))%Q /\
    ((0 <= q)%Q -> 0 <= k).
Proof.
  intro Hs. exists (Qfloor q / s).
  pose proof (Qfloor_le q) as Hlo. pose proof (Qlt_floor q) as Hhi.
  pose proof (Z.div_mod (Qfloor q) s ltac:(lia)) as Hdm.
  pose proof (Z.mod_pos_bound (Qfloor q) s Hs) as Hm.
  split; [|split].
  - eapply Qle_trans; [|exact Hlo]. rewrite <- Zle_Qle. lia.
  - eapply Qlt_le_trans; [exact Hhi|]. rewrite <- Zle_Qle. lia.
  - intro Hq. apply Z.div_pos; [|exact Hs].
    assert (0 < Qfloor q + 1); [|lia].
    rewrite Zlt_Qlt. eapply Qle_lt_trans; [exact Hq | exact Hhi].
Qed.

End Coverage.

(** * The claims about the partitioner *)

Section Partitioner.

Variable subs : list subtitle.
Variables cdm om : Z.

Local Abbreviation D := (cdm * 60).
Local Abbreviation O := (om * 60).
Local Abbreviation T := (total_duration_of subs).

(** An entry that starts at or after zero and does not end before it
    starts is in some chunk, when the step and the overlap are positive
    and the total duration is. *)
Lemma visit_covers (m : nat) sub :
  0 < O -> O < D ->
  (forall c, In c (starts_from D O m 0) -> (inject_Z c < T)%Q) ->
  (T <= inject_Z (Z.of_nat m * (D - O)))%Q ->
  In sub subs ->
  (0 <= sub_start sub)%Q -> (sub_start sub <= sub_end sub)%Q -> (0 < T)%Q ->
  exists c, In c (starts_from D O m 0) /\ in_chunk c (c + D) sub = true.
Proof.
  intros HO HD Hlt Hge Hin H0 Hse HT.
  pose proof (total_duration_upper _ _ Hin) as HeT.
  destruct (grid_below (sub_start sub) (D - O) ltac:(lia))
    as [k [Hk1 [Hk2 Hk3]]].
  specialize (Hk3 H0).
  destruct (Qlt_le_dec (inject_Z (k * (D - O))) T) as [Hc|Hc].
  - exists (k * (D - O)). split.
    + apply (visited_iff subs cdm om m); [lia | exact Hlt | exact Hge|].
      exists k. split; [exact Hk3|]. split; [reflexivity | exact Hc].
    + apply in_chunk_true. split; [left; exact Hk1|].
      eapply Qlt_le_trans; [exact Hk2|]. rewrite <- Zle_Qle. lia.
  - assert (0 < k * (D - O)) as Hpos.
    { rewrite Zlt_Qlt. eapply Qlt_le_trans; [exact HT | exact Hc]. }
    assert (inject_Z ((k - 1) * (D - O)) < inject_Z (k * (D - O)))%Q as Hprev
      by (rewrite <- Zlt_Qlt; lia).
    exists ((k - 1) * (D - O)). split.
    + apply (visited_iff subs cdm om m); [lia | exact Hlt | exact Hge|].
      exists (k - 1). split; [nia|]. split; [reflexivity|].
      eapply Qlt_le_trans; [exact Hprev|].
      eapply Qle_trans; [exact Hk1|].
      eapply Qle_trans; [exact Hse | exact HeT].
    + apply in_chunk_true. split.
      * left. eapply Qle_trans; [apply Qlt_le_weak, Hprev | exact Hk1].
      * eapply Qle_lt_trans;
          [eapply Qle_trans; [exact Hse | eapply Qle_trans; [exact HeT | exact Hc]]|].
        rewrite <- Zlt_Qlt. lia.
Qed.

End Partitioner.

(** C1, as the code has it.  For every entry list and all minutes
    [chunk > overlap > 0], [split_srt_by_time] returns, and: the entries of
    the returned chunks are exactly the entries selected by the planned
    range [[k*step, k*step + chunk_duration)] of some pass [k] whose planned
    start lies below the total duration; no entry with [0 <= start <= end]
    is dropped when the total duration is positive; and at least one chunk
    is returned when some entry has [start <= end] and [0 < end]. *)
Theorem split_srt_by_time_covers (subs : list subtitle) (cdm om : Z) :
  0 < om -> om < cdm ->
  exists cs,
    (forall fuel, (enough_fuel subs <= fuel)%nat ->
       split_srt_by_time fuel subs cdm om = Some cs) /\
    (forall sub,
       covered cs sub <->
       In sub subs /\
       exists k, 0 <= k /\
         (inject_Z (k * (cdm * 60 - om * 60)) < total_duration_of subs)%Q /\
         in_chunk (k * (cdm * 60 - om * 60))
                  (k * (cdm * 60 - om * 60) + cdm * 60) sub = true) /\
    (forall sub,
       In sub subs ->
       (0 <= sub_start sub)%Q -> (sub_start sub <= sub_end sub)%Q ->
       (0 < total_duration_of subs)%Q ->
       covered cs sub) /\
    ((exists sub, In sub subs /\ (sub_start sub <= sub_end sub)%Q /\
                  (0 < sub_end sub)%Q) ->
     cs <> []).
Proof.
  intros Hom Hlt.
  destruct (split_terminates subs cdm om Hlt) as [cs Hcs].
  exists cs. split; [exact Hcs|].
  destruct (split_spec subs cdm om _ cs (Hcs _ (Nat.le_refl _)))
    as [m [H1 [H2 H3]]].
  assert (forall sub,
            In sub subs ->
            (0 <= sub_start sub)%Q -> (sub_start sub <= sub_end sub)%Q ->
            (0 < total_duration_of subs)%Q ->
            covered cs sub) as Hcov.
  { intros sub Hin H0 Hse HT. rewrite H1. apply covered_emit.
    split; [exact Hin|].
    apply (visit_covers subs cdm om m sub); try assumption; lia. }
  split; [|split; [exact Hcov|]].
  - intro sub. rewrite H1, covered_emit.
    split; intros [Hin [c Hc]]; (split; [exact Hin|]).
    + destruct Hc as [Hc Hsel].
      apply (visited_iff subs cdm om m c) in Hc; [|lia|exact H2|exact H3].
      destruct Hc as [k [Hk [Heq HcT]]]. subst c.
      exists k. split; [exact Hk|]. split; [exact HcT | exact Hsel].
    + destruct Hc as [Hk [HcT Hsel]].
      exists (c * (cdm * 60 - om * 60)). split; [|exact Hsel].
      apply (visited_iff subs cdm om m); [lia|exact H2|exact H3|].
      exists c. split; [exact Hk|]. split; [reflexivity | exact HcT].
  - intros [sub [Hin [Hse Hpos]]].
    pose proof (total_duration_upper _ _ Hin) as HeT.
    assert (0 < total_duration_of subs)%Q as HT
      by (eapply Qlt_le_trans; eassumption).
    assert (covered cs sub) as [w [Hw _]].
    { destruct (Qlt_le_dec (sub_start sub) 0) as [Hneg|Hnn].
      - rewrite H1. apply covered_emit. split; [exact Hin|].
        exists 0. split.
        + apply (visited_iff subs cdm om m); [lia|exact H2|exact H3|].
          exists 0. split; [lia|]. split; [reflexivity | exact HT].
        + apply in_chunk_true. split; [right; exact Hpos|].
          eapply Qlt_trans; [exact Hneg|].
          rewrite <- (Zlt_Qlt 0). lia.
      - apply Hcov; assumption. }
    intro Hnil. rewrite Hnil in Hw. destruct Hw.
Qed.

Lemma split_srt_by_time_covers_witness :
  exists cs,
    split_srt_by_time (enough_fuel scenario) scenario 30 5 = Some cs /\
    covered cs (ent 3 40 45) /\ cs <> [].
Proof.
  destruct (split_srt_by_time_covers scenario 30 5) as [cs [H1 [_ [H3 H4]]]];
    [lia | lia |].
  exists cs. split; [apply H1; apply Nat.le_refl|]. split.
  - apply H3.
    + right; right; left; reflexivity.
    + discriminate.
    + discriminate.
    + reflexivity.
  - apply H4. exists (ent 3 40 45).
    split; [right; right; left; reflexivity|].
    split; [discriminate | reflexivity].
Defined.

(** C1 as stated fails: one entry from 0 to 0 seconds is a non-empty
    sequence, the default 30 and 2 minutes satisfy
    [chunk_duration > overlap > 0], and no chunk is returned. *)
Lemma split_srt_by_time_covers_counterexample :
  [ent 1 0 0] <> [] /\
  split_srt_by_time 1 [ent 1 0 0] 30 2 = Some [] /\
  forall fuel cs,
    split_srt_by_time fuel [ent 1 0 0] 30 2 = Some cs -> cs = [].
Proof.
  split; [discriminate|]. split; [reflexivity|].
  intros fuel cs H. destruct fuel as [|fuel]; [discriminate|].
  pose proof (split_more_fuel [ent 1 0 0] 30 2 1 (S fuel) []
                eq_refl ltac:(lia)) as H1.
  congruence.
Qed.

(** C4.  For every entry list and all minutes [chunk > overlap >= 0],
    [split_srt_by_time] terminates: the step [chunk_duration - overlap] is
    positive, and the result is returned with [enough_fuel] and with any
    more fuel.  Every pass moves [chunk_start] by the step and breaks
    exactly when the next planned start has reached the total duration.
    With [overlap >= chunk] no pass moves [chunk_start] forward, and the
    loop never stops when the total duration is positive. *)
Theorem split_srt_by_time_terminates (subs : list subtitle) (cdm om : Z) :
  (0 <= om -> om < cdm ->
   0 < cdm * 60 - om * 60 /\
   exists cs, forall fuel, (enough_fuel subs <= fuel)%nat ->
     split_srt_by_time fuel subs cdm om = Some cs) /\
  (forall (T : Q) (st : loop_state),
     let r := loop_body subs (cdm * 60) (om * 60) T st in
     chunk_start (fst r) = chunk_start st + (cdm * 60 - om * 60) /\
     (snd r = true <-> (T <= inject_Z (chunk_start (fst r)))%Q)) /\
  (cdm <= om ->
   (forall (T : Q) (st : loop_state),
      chunk_start (fst (loop_body subs (cdm * 60) (om * 60) T st))
      <= chunk_start st) /\
   ((0 < total_duration_of subs)%Q ->
    forall fuel, split_srt_by_time fuel subs cdm om = None)).
Proof.
  split; [|split].
  - intros _ Hlt. split; [lia|]. apply split_terminates. exact Hlt.
  - intros T st r. subst r. rewrite loop_body_start, loop_body_stop.
    split; [lia|]. apply Qle_bool_iff.
  - intro Hle. split.
    + intros T st. rewrite loop_body_start. lia.
    + intros HT fuel. apply split_diverges; assumption.
Qed.

Lemma split_srt_by_time_terminates_witness :
  (exists cs, split_srt_by_time (enough_fuel scenario) scenario 30 5 = Some cs)
  /\ split_srt_by_time 1000 scenario 2 2 = None.
Proof.
  split.
  - destruct (split_srt_by_time_terminates scenario 30 5) as [H _].
    destruct H as [_ [cs Hcs]]; [lia | lia |].
    exists cs. apply Hcs. apply Nat.le_refl.
  - destruct (split_srt_by_time_terminates scenario 2 2) as [_ [_ H]].
    destruct H as [_ H]; [lia|].
    apply H. reflexivity.
Defined.





(** C3, as the code has it.  In every pass the selection is the input
    filtered by: the start lies in the planned range, or the end lies
    after the planned start and the start before the planned end.  It
    keeps the source order and repeats no entry the source does not
    repeat.  Every returned chunk holds the selection of its planned
    range.  For an entry with [start < end] this is to say: it is in the
    chunk exactly when it ends after the planned start and starts before
    the planned end. *)
Theorem split_srt_by_time_selection (subs : list subtitle) (cdm om : Z) :
  (forall (T : Q) (st : loop_state),
     let cs := chunk_start st in
     let ce := chunk_start st + cdm * 60 in
     let sel := select subs cs ce in
     sel = filter (fun sub => starts_within cs ce sub
                              || overlaps_with cs ce sub) subs /\
     (forall sub, In sub sel <->
        In sub subs /\
        ((inject_Z cs <= sub_start sub /\ sub_start sub < inject_Z ce) \/
         (inject_Z cs < sub_end sub /\ sub_start sub < inject_Z ce))%Q) /\
     (NoDup subs -> NoDup sel) /\
     chunks (fst (loop_body subs (cdm * 60) (om * 60) T st)) =
       chunks st ++
       match sel with
       | [] => []
       | sub :: rest =>
           [{| ch_number := chunk_number st;
               start_time := py_min (sub_start sub) (map sub_start rest);
               end_time := py_max (sub_end sub) (map sub_end rest);
               ch_subtitles := sel;
               planned_start := cs;
               planned_end := ce |}]
       end) /\
  (forall fuel cs,
     split_srt_by_time fuel subs cdm om = Some cs ->
     forall c, In c cs ->
       planned_end c = planned_start c + cdm * 60 /\
       ch_subtitles c = select subs (planned_start c) (planned_end c) /\
       forall sub, In sub subs -> (sub_start sub < sub_end sub)%Q ->
         (In sub (ch_subtitles c) <->
          overlaps_with (planned_start c) (planned_end c) sub = true)).
Proof.
  split.
  - intros T st cs ce sel. subst cs ce sel.
    split; [reflexivity|]. split; [|split].
    + intro sub. rewrite select_In, in_chunk_true. tauto.
    + intro Hnd. apply NoDup_filter. exact Hnd.
    + rewrite loop_body_emit. simpl.
      destruct (select subs (chunk_start st) (chunk_start st + cdm * 60));
        reflexivity.
  - intros fuel cs H c Hc.
    destruct (split_spec _ _ _ _ _ H) as [m [H1 _]].
    rewrite H1 in Hc.
    destruct (emit_In _ _ _ _ _ Hc) as [c0 [sub0 [rest [_ [Hsel Hceq]]]]].
    rewrite Hceq. unfold new_chunk.
    cbn [planned_end planned_start ch_subtitles].
    split; [reflexivity|]. split; [symmetry; exact Hsel|].
    intros sub Hin Hlt. rewrite <- Hsel.
    rewrite select_In, in_chunk_true, overlaps_with_true.
    split.
    + intros [_ [[Hs|He] Hce]]; (split; [|exact Hce]).
      * eapply Qle_lt_trans; [exact Hs | exact Hlt].
      * exact He.
    + intros [He Hce]. split; [exact Hin|]. split; [right; exact He | exact Hce].
Qed.

Lemma split_srt_by_time_selection_witness :
  exists c,
    split_srt_by_time 1 scenario 30 5 = Some [c] /\
    (In (ent 2 10 15) (ch_subtitles c) <->
     overlaps_with (planned_start c) (planned_end c) (ent 2 10 15) = true).
Proof.
  eexists. split; [reflexivity|].
  destruct (split_srt_by_time_selection scenario 30 5) as [_ H].
  destruct (H 1%nat _ eq_refl _ (or_introl eq_refl)) as [_ [_ H3]].
  apply H3.
  - right; left; reflexivity.
  - reflexivity.
Defined.

(** C3 as stated fails in its last part: an entry from 0 to 0 seconds is
    selected for the planned range [0,1800), where it starts, and its
    interval does not overlap that range: it does not end after the
    planned start. *)
Lemma split_srt_by_time_selection_counterexample :
  exists c,
    split_srt_by_time 1 [ent 1 0 0; ent 2 10 20] 30 2 = Some [c] /\
    In (ent 1 0 0) (ch_subtitles c) /\
    starts_within (planned_start c) (planned_end c) (ent 1 0 0) = true /\
    overlaps_with (planned_start c) (planned_end c) (ent 1 0 0) = false /\
    ~ (exists t : Q,
         (sub_start (ent 1 0 0) <= t /\ t < sub_end (ent 1 0 0))%Q /\
         (inject_Z (planned_start c) <= t /\ t < inject_Z (planned_end c))%Q).
Proof.
  eexists. split; [reflexivity|]. split; [left; reflexivity|].
  split; [reflexivity|]. split; [reflexivity|].
  intros [t [[H1 H2] _]]. simpl in H1, H2.
  apply (Qlt_irrefl 0). eapply Qle_lt_trans; eassumption.
Qed.

(** Two planned starts of one run with [mid] between them. *)
Lemma starts_from_gap (D O : Z) (m : nat) (c0 : Z) s1 c1 mid c2 s2 :
  starts_from D O m c0 = s1 ++ c1 :: mid ++ c2 :: s2 ->
  c2 = c1 + (Z.of_nat (List.length mid) + 1) * (D - O) /\
  (forall x tl, mid = x :: tl -> x = c1 + (D - O)).
Proof.
  intro H. apply starts_from_suffix in H.
  destruct (m - List.length s1)%nat as [|m1]; [discriminate|].
  simpl in H. injection H as Hc1 Hrest.
  rewrite <- Hc1 in Hrest. symmetry in Hrest.
  split.
  - apply starts_from_suffix in Hrest.
    destruct (m1 - List.length mid)%nat as [|m2]; [discriminate|].
    simpl in Hrest. injection Hrest as Hc2 _. lia.
  - intros x tl Hmid. subst mid. destruct m1 as [|m1]; [discriminate|].
    simpl in Hrest. injection Hrest as Hx _. lia.
Qed.

(** C5, as the code has it.  For two neighbours [w1], [w2] of a result,
    an entry is in both exactly when it starts before the planned end of
    [w1] and starts at or after, or ends after, the next planned start
    [planned_end w1 - overlap_duration].  So an entry that starts in
    [[next planned start, planned end)] of [w1] is in both, and so is an
    entry that starts before the next planned start and ends after it. *)
Theorem split_srt_by_time_adjacent (subs : list subtitle) (cdm om : Z)
    (fuel : nat) (l1 : list chunk) (w1 w2 : chunk) (l2 : list chunk) :
  split_srt_by_time fuel subs cdm om = Some (l1 ++ w1 :: w2 :: l2) ->
  let next_chunk_start := planned_end w1 - om * 60 in
  (forall sub,
     In sub (ch_subtitles w1) /\ In sub (ch_subtitles w2) <->
     In sub subs /\
     (sub_start sub < inject_Z (planned_end w1))%Q /\
     (inject_Z next_chunk_start <= sub_start sub \/
      inject_Z next_chunk_start < sub_end sub)%Q) /\
  (forall sub,
     In sub subs ->
     (inject_Z next_chunk_start <= sub_start sub)%Q ->
     (sub_start sub < inject_Z (planned_end w1))%Q ->
     In sub (ch_subtitles w1) /\ In sub (ch_subtitles w2)).
Proof.
  intros H next.
  assert (forall sub,
     In sub (ch_subtitles w1) /\ In sub (ch_subtitles w2) <->
     In sub subs /\
     (sub_start sub < inject_Z (planned_end w1))%Q /\
     (inject_Z next <= sub_start sub \/ inject_Z next < sub_end sub)%Q) as Hiff.
  { destruct (split_spec _ _ _ _ _ H) as [m [H1 [H2 H3]]].
    symmetry in H1.
    destruct (emit_adjacent _ _ _ _ _ _ _ _ H1)
      as [s1 [c1 [mid [c2 [s2 [Hst [Hmid [Hw1 [Hp1 [He1 [Hw2 _]]]]]]]]]]].
    destruct (starts_from_gap _ _ _ _ _ _ _ _ _ Hst) as [Hc2 Hfirst].
    assert (0 < cdm * 60 - om * 60) as Hstep.
    { assert (In c1 (starts_from (cdm * 60) (om * 60) m 0)) as Hin
        by (rewrite Hst; apply in_or_app; right; left; reflexivity).
      pose proof (H2 _ Hin) as HcT.
      apply starts_from_In in Hin. destruct Hin as [k [Hk Hc1]].
      assert (c1 < Z.of_nat m * (cdm * 60 - om * 60)) as Hlt
        by (rewrite Zlt_Qlt; eapply Qlt_le_trans; eassumption).
      nia. }
    assert (inject_Z c1 < inject_Z next)%Q as Hc1n
      by (rewrite <- Zlt_Qlt; subst next; lia).
    assert (inject_Z next <= inject_Z c2)%Q as Hnc2
      by (rewrite <- Zle_Qle; subst next; nia).
    intro sub. rewrite Hw1, Hw2, !select_In, !in_chunk_true, He1.
    split.
    - intros [[Hin [_ Hend]] [_ [Hc Hend2]]].
      split; [exact Hin|]. split; [exact Hend|].
      destruct Hc as [Hc|Hc].
      + left. eapply Qle_trans; eassumption.
      + right. eapply Qle_lt_trans; eassumption.
    - intros [Hin [Hend Hc]].
      assert (inject_Z c1 <= sub_start sub \/ inject_Z c1 < sub_end sub)%Q
        as Hc1.
      { destruct Hc as [Hc|Hc].
        - left. apply Qlt_le_weak. eapply Qlt_le_trans; eassumption.
        - right. eapply Qlt_trans; eassumption. }
      split; [split; [exact Hin|]; split; assumption|].
      split; [exact Hin|].
      destruct mid as [|x tl].
      + change (Z.of_nat (List.length (@nil Z))) with 0 in Hc2.
        assert (c2 = next) as -> by (subst next; lia).
        split; [exact Hc|].
        eapply Qlt_le_trans; [exact Hend|].
        rewrite <- Zle_Qle. subst next. lia.
      + exfalso.
        pose proof (Hfirst x tl eq_refl) as Hx.
        assert (x = next) as Hxn by (subst next; lia).
        pose proof (Hmid x (or_introl eq_refl)) as Hempty.
        simpl in Hempty.
        assert (In sub (select subs x (x + cdm * 60))) as Hsel.
        { apply select_In. split; [exact Hin|]. apply in_chunk_true.
          rewrite Hxn. split; [exact Hc|].
          eapply Qlt_le_trans; [exact Hend|].
          rewrite <- Zle_Qle. subst next. lia. }
        rewrite Hempty in Hsel. destruct Hsel. }
  split; [exact Hiff|].
  intros sub Hin Hlo Hhi. apply Hiff.
  split; [exact Hin|]. split; [exact Hhi | left; exact Hlo].
Qed.

Lemma split_srt_by_time_adjacent_witness :
  let w1 := {| ch_number := 1; start_time := 0; end_time := 900;
               ch_subtitles := [ent 1 0 300; ent 2 600 900];
               planned_start := 0; planned_end := 1800 |} in
  let w2 := {| ch_number := 2; start_time := 2400; end_time := 2700;
               ch_subtitles := [ent 3 2400 2700];
               planned_start := 1500; planned_end := 3300 |} in
  split_srt_by_time 2 scenario_minutes 30 5 = Some ([] ++ w1 :: w2 :: []) /\
  ~ (In (ent 1 0 300) (ch_subtitles w1) /\
     In (ent 1 0 300) (ch_subtitles w2)).
Proof.
  intros w1 w2.
  assert (split_srt_by_time 2 scenario_minutes 30 5
          = Some ([] ++ w1 :: w2 :: [])) as Hrun by (vm_compute; reflexivity).
  split; [exact Hrun|].
  intro Hboth.
  apply (split_srt_by_time_adjacent scenario_minutes 30 5 2 [] w1 w2 []
           Hrun) in Hboth.
  destruct Hboth as [_ [_ [H|H]]]; vm_compute in H;
    [exact (H eq_refl) | discriminate H].
Defined.

(** C5 as stated fails in the only-if part: with 30 and 5 minutes, an
    entry from 1400 to 1600 seconds is in the two neighbouring chunks
    planned [0,1800) and [1500,3300), and it does not start in
    [1500,1800). *)
Lemma split_srt_by_time_adjacent_counterexample :
  exists w1 w2,
    split_srt_by_time 2 [ent 1 1400 1600] 30 5 = Some [w1; w2] /\
    In (ent 1 1400 1600) (ch_subtitles w1) /\
    In (ent 1 1400 1600) (ch_subtitles w2) /\
    planned_end w1 = 1800 /\ planned_end w1 - 5 * 60 = 1500 /\
    planned_start w2 = 1500 /\
    ~ (inject_Z (planned_end w1 - 5 * 60) <= sub_start (ent 1 1400 1600))%Q.
Proof.
  eexists. eexists. split; [reflexivity|].
  split; [left; reflexivity|]. split; [left; reflexivity|].
  repeat (split; [reflexivity|]).
  intro H. exact (H eq_refl).
Qed.

(** * The parser *)

Local Open Scope string_scope.

(** ** Blocks *)

Lemma exn_unique (e : exn) : e = ValueError.
Proof. destruct e. reflexivity. Qed.

Lemma parse_block_invalid block :
  structurally_valid block = false -> parse_block block = Ok None.
Proof.
  unfold structurally_valid, parse_block.
  destruct (3 <=? List.length (split newline (strip block)))%nat;
    [|reflexivity].
  destruct (py_int (nth 0 (split newline (strip block)) "")); [|reflexivity].
  simpl. intros ->. reflexivity.
Qed.

Lemma parse_block_valid block :
  structurally_valid block = true ->
  parse_block block = Raise ValueError \/
  exists sub, parse_block block = Ok (Some sub).
Proof.
  unfold structurally_valid, parse_block.
  destruct (3 <=? List.length (split newline (strip block)))%nat;
    [|discriminate].
  destruct (py_int (nth 0 (split newline (strip block)) "")); [|discriminate].
  simpl. intros ->.
  destruct (split " --> " _) as [|a [|b [|c l]]]; try (left; reflexivity).
  destruct (parse_srt_time (strip a)) as [x|e];
    [|left; rewrite (exn_unique e); reflexivity].
  destruct (parse_srt_time (strip b)) as [y|e];
    [|left; rewrite (exn_unique e); reflexivity].
  right. eexists. reflexivity.
Qed.

Lemma parse_block_some block sub :
  parse_block block = Ok (Some sub) ->
  structurally_valid block = true /\
  py_int (nth 0 (split newline (strip block)) "") = Some (sub_number sub).
Proof.
  destruct (structurally_valid block) eqn:E.
  - intro H. split; [reflexivity|].
    unfold parse_block in H.
    destruct (3 <=? List.length (split newline (strip block)))%nat;
      [|discriminate].
    destruct (py_int (nth 0 (split newline (strip block)) "")); [|discriminate].
    destruct (contains " --> " _); [|discriminate].
    destruct (split " --> " _) as [|a [|b [|c l]]]; try discriminate.
    destruct (parse_srt_time (strip a)); [|discriminate].
    destruct (parse_srt_time (strip b)); [|discriminate].
    simpl in H. inversion H. reflexivity.
  - rewrite (parse_block_invalid _ E). discriminate.
Qed.

(** A raising block makes the whole loop raise, whatever came before. *)
Lemma parse_blocks_raise blocks : forall block acc,
  In block blocks -> parse_block block = Raise ValueError ->
  parse_blocks blocks acc = Raise ValueError.
Proof.
  induction blocks as [|b rest IH]; intros block acc Hin Hb; [destruct Hin|].
  simpl. destruct Hin as [Hin|Hin].
  - subst b. rewrite Hb. reflexivity.
  - destruct (parse_block b) as [r|e]; simpl.
    + eapply IH; eassumption.
    + rewrite (exn_unique e). reflexivity.
Qed.

(** A skipped block can be taken out of the input. *)
Lemma parse_blocks_skip l1 : forall block l2 acc,
  parse_block block = Ok None ->
  parse_blocks (l1 ++ block :: l2) acc = parse_blocks (l1 ++ l2) acc.
Proof.
  induction l1 as [|b l1 IH]; intros block l2 acc Hb; simpl.
  - rewrite Hb. reflexivity.
  - destruct (parse_block b) as [r|e]; simpl; [|reflexivity].
    apply IH. exact Hb.
Qed.

(** A returned list has one entry per structurally valid block. *)
Lemma parse_blocks_length blocks : forall acc subs,
  parse_blocks blocks acc = Ok subs ->
  List.length subs =
    (List.length acc + List.length (filter structurally_valid blocks))%nat.
Proof.
  induction blocks as [|b rest IH]; intros acc subs H; simpl in H.
  - inversion H. simpl. lia.
  - simpl. destruct (structurally_valid b) eqn:E.
    + destruct (parse_block_valid _ E) as [Hr|[sub Hs]].
      * rewrite Hr in H. discriminate.
      * rewrite Hs in H. simpl in H. apply IH in H.
        rewrite H, length_app. simpl. lia.
    + rewrite (parse_block_invalid _ E) in H. simpl in H.
      apply IH in H. exact H.
Qed.





(** ** Strings of digits *)

Lemma all_chars_impl (p q : ascii -> bool) s :
  (forall a, p a = true -> q a = true) ->
  all_chars p s = true -> all_chars q s = true.
Proof.
  intro Hpq. induction s as [|a s IH]; simpl; [reflexivity|].
  rewrite !andb_true_iff. intros [Ha Hs]. split; [apply Hpq, Ha | apply IH, Hs].
Qed.

Lemma all_chars_app p s1 s2 :
  all_chars p (s1 ++ s2) = all_chars p s1 && all_chars p s2.
Proof.
  induction s1 as [|a s1 IH]; simpl; [reflexivity|].
  rewrite IH. apply andb_assoc.
Qed.

Lemma field_char_plain a :
  is_field_char a = true ->
  is_space a = false /\ differs "," a = true /\ differs ":" a = true /\
  (a =? "+")%char = false /\ (a =? "_")%char = false.
Proof.
  destruct a as [[] [] [] [] [] [] [] []]; vm_compute; intro H;
    try discriminate H; repeat split.
Qed.

Lemma digit_is_field_char a : is_digit a = true -> is_field_char a = true.
Proof. unfold is_field_char. intros ->. reflexivity. Qed.

Lemma digit_not_minus a : is_digit a = true -> (a =? "-")%char = false.
Proof.
  destruct a as [[] [] [] [] [] [] [] []]; vm_compute; intro H;
    try discriminate H; reflexivity.
Qed.

Lemma lstrip_id c s : is_space c = false -> lstrip (String c s) = String c s.
Proof. simpl. intros ->. reflexivity. Qed.

Lemma rstrip_id s :
  all_chars (fun a => negb (is_space a)) s = true -> rstrip s = s.
Proof.
  induction s as [|a s IH]; simpl; [reflexivity|].
  rewrite andb_true_iff, negb_true_iff. intros [Ha Hs].
  rewrite (IH Hs), Ha. destruct s; reflexivity.
Qed.

Lemma strip_id s :
  all_chars (fun a => negb (is_space a)) s = true -> strip s = s.
Proof.
  intro H. unfold strip. destruct s as [|a s]; [reflexivity|].
  pose proof H as H'. simpl in H'. apply andb_true_iff in H'.
  destruct H' as [Ha _]. apply negb_true_iff in Ha.
  rewrite (lstrip_id _ _ Ha). apply rstrip_id. exact H.
Qed.

Lemma strip_field s : all_chars is_field_char s = true -> strip s = s.
Proof.
  intro H. apply strip_id. revert H. apply all_chars_impl.
  intros a Ha. apply field_char_plain in Ha. destruct Ha as [-> _].
  reflexivity.
Qed.

(** ** [split] at a character *)

Lemma prefix_char c a s :
  prefix (String c "") (String a s) = (a =? c)%char.
Proof.
  simpl. destruct (ascii_dec c a) as [->|Hne].
  - rewrite Ascii.eqb_refl. destruct s; reflexivity.
  - symmetry. apply Ascii.eqb_neq. congruence.
Qed.

Lemma split_parts_char_none c s :
  all_chars (differs c) s = true ->
  split_parts (String c "") 0 s = (s, []).
Proof.
  induction s as [|a s IH]; [reflexivity|].
  intro H. simpl in H. apply andb_true_iff in H. destruct H as [Ha Hs].
  unfold differs in Ha. apply negb_true_iff in Ha.
  cbn -[prefix]. rewrite prefix_char, Ha, (IH Hs). reflexivity.
Qed.

Lemma split_parts_char_app c x y :
  all_chars (differs c) x = true ->
  split_parts (String c "") 0 (x ++ String c y) =
  (x, split (String c "") y).
Proof.
  induction x as [|a x IH]; intro H.
  - cbn -[prefix]. rewrite prefix_char, Ascii.eqb_refl.
    unfold split. destruct (split_parts (String c "") 0 y). reflexivity.
  - simpl in H. apply andb_true_iff in H. destruct H as [Ha Hx].
    unfold differs in Ha. apply negb_true_iff in Ha.
    cbn -[prefix split]. rewrite prefix_char, Ha, (IH Hx). reflexivity.
Qed.

Lemma split_char_none c s :
  all_chars (differs c) s = true -> split (String c "") s = [s].
Proof.
  intro H. unfold split. rewrite (split_parts_char_none _ _ H). reflexivity.
Qed.

Lemma split_char_app c x y :
  all_chars (differs c) x = true ->
  split (String c "") (x ++ String c y) = x :: split (String c "") y.
Proof.
  intro H. unfold split at 1. rewrite (split_parts_char_app _ _ _ H).
  reflexivity.
Qed.

(** ** [int] on digits *)

Lemma int_digits_value s : forall acc after_digit,
  all_chars is_digit s = true ->
  s <> "" \/ after_digit = true ->
  int_digits acc after_digit s = Some (decimal_value_from acc s).
Proof.
  induction s as [|a s IH]; intros acc b Hall Hne; simpl.
  - destruct Hne as [Hne | ->]; [congruence | reflexivity].
  - simpl in Hall. apply andb_true_iff in Hall. destruct Hall as [Ha Hs].
    rewrite Ha. apply IH; [exact Hs | right; reflexivity].
Qed.

Lemma py_int_digits s :
  digit_string s -> py_int s = Some (decimal_value s).
Proof.
  intros [Hne Hall]. unfold py_int.
  rewrite strip_field
    by (revert Hall; apply all_chars_impl; exact digit_is_field_char).
  destruct s as [|a s]; [congruence|].
  pose proof Hall as Ha. simpl in Ha. apply andb_true_iff in Ha.
  destruct Ha as [Ha _].
  rewrite (digit_not_minus _ Ha).
  destruct (field_char_plain _ (digit_is_field_char _ Ha))
    as [_ [_ [_ [-> _]]]].
  apply int_digits_value; [exact Hall | left; discriminate].
Qed.

Lemma int_of_str_digits s :
  digit_string s -> int_of_str s = Ok (decimal_value s).
Proof.
  intro H. unfold int_of_str. rewrite (py_int_digits _ H). reflexivity.
Qed.

(** ** [parse_srt_time] on four fields *)

Lemma app_string_assoc (x y z : string) : (x ++ y) ++ z = x ++ (y ++ z).
Proof.
  induction x as [|a x IH]; simpl; [reflexivity|]. rewrite IH. reflexivity.
Qed.

Lemma app_string_length (x y : string) :
  String.length (x ++ y) = (String.length x + String.length y)%nat.
Proof.
  induction x as [|a x IH]; simpl; [reflexivity|]. rewrite IH. reflexivity.
Qed.

Lemma field_differs c s :
  is_field_char c = false ->
  all_chars is_field_char s = true -> all_chars (differs c) s = true.
Proof.
  intro Hc. apply all_chars_impl. intros a Ha.
  unfold differs. apply negb_true_iff. apply Ascii.eqb_neq.
  intro Heq. subst a. congruence.
Qed.

Lemma parse_srt_time_fields (hs mins ss mss : string) (h m s ms : Z) :
  all_chars is_field_char hs = true ->
  all_chars is_field_char mins = true ->
  all_chars is_field_char ss = true ->
  all_chars is_field_char mss = true ->
  py_int hs = Some h -> py_int mins = Some m ->
  py_int ss = Some s -> py_int mss = Some ms ->
  parse_srt_time (hs ++ ":" ++ mins ++ ":" ++ ss ++ "," ++ mss)
  = Ok (srt_seconds h m s ms).
Proof.
  intros Fh Fm Fs Fms Ih Im Is Ims.
  pose proof (field_differs "," _ eq_refl Fh) as Ch.
  pose proof (field_differs "," _ eq_refl Fm) as Cm.
  pose proof (field_differs "," _ eq_refl Fs) as Cs.
  pose proof (field_differs "," _ eq_refl Fms) as Cms.
  pose proof (field_differs ":" _ eq_refl Fh) as Dh.
  pose proof (field_differs ":" _ eq_refl Fm) as Dm.
  pose proof (field_differs ":" _ eq_refl Fs) as Ds.
  unfold parse_srt_time.
  replace (hs ++ ":" ++ mins ++ ":" ++ ss ++ "," ++ mss)
    with ((hs ++ ":" ++ mins ++ ":" ++ ss) ++ String "," mss)
    by (rewrite !app_string_assoc; reflexivity).
  rewrite split_char_app.
  2:{ rewrite !all_chars_app. simpl. rewrite Ch, Cm, Cs. reflexivity. }
  rewrite (split_char_none _ _ Cms).
  change (hs ++ ":" ++ mins ++ ":" ++ ss)
    with (hs ++ String ":" (mins ++ String ":" ss)).
  rewrite (split_char_app _ _ _ Dh), (split_char_app _ _ _ Dm),
    (split_char_none _ _ Ds).
  unfold int_of_str. rewrite Ih, Im, Is, Ims. reflexivity.
Qed.



(** ** Writing and reading back an integer *)

Lemma digit_char_spec d :
  0 <= d < 10 ->
  is_digit (digit_char d) = true /\ digit_value (digit_char d) = d.
Proof.
  intro H.
  assert (d = 0 \/ d = 1 \/ d = 2 \/ d = 3 \/ d = 4 \/ d = 5 \/ d = 6 \/
          d = 7 \/ d = 8 \/ d = 9) as Hd by lia.
  repeat (destruct Hd as [Hd|Hd]; [subst d; split; reflexivity|]).
  subst d; split; reflexivity.
Qed.

Lemma decimal_value_from_app x : forall acc y,
  decimal_value_from acc (x ++ y)
  = decimal_value_from (decimal_value_from acc x) y.
Proof.
  induction x as [|a x IH]; intros acc y; simpl; [reflexivity | apply IH].
Qed.

(** [dec_digits] writes a non-empty string of digits that denotes [n]. *)
Lemma one_digit_spec n :
  0 <= n < 10 ->
  String (digit_char (n mod 10)) "" <> "" /\
  all_chars is_digit (String (digit_char (n mod 10)) "") = true /\
  forall acc,
    decimal_value_from acc (String (digit_char (n mod 10)) "")
    = acc * 10 ^ Z.of_nat (String.length (String (digit_char (n mod 10)) ""))
      + n.
Proof.
  intro Hn. rewrite (Z.mod_small n 10 Hn).
  destruct (digit_char_spec n Hn) as [H1 H2].
  split; [discriminate|]. split.
  - cbn [all_chars]. rewrite H1. reflexivity.
  - intro acc. cbn [decimal_value_from String.length]. rewrite H2.
    change (Z.of_nat 1) with 1. lia.
Qed.

Lemma dec_digits_spec fuel : forall n tail,
  0 <= n < 2 ^ (Z.of_nat fuel + 1) ->
  exists ds,
    dec_digits fuel n tail = ds ++ tail /\
    ds <> "" /\ all_chars is_digit ds = true /\
    forall acc,
      decimal_value_from acc ds
      = acc * 10 ^ Z.of_nat (String.length ds) + n.
Proof.
  induction fuel as [|fuel IH]; intros n tail Hn.
  - change (Z.of_nat 0 + 1) with 1 in Hn. change (2 ^ 1) with 2 in Hn.
    exists (String (digit_char (n mod 10)) "").
    split; [reflexivity|]. apply one_digit_spec. lia.
  - pose proof (Z.div_mod n 10 ltac:(lia)) as Hdm.
    pose proof (Z.mod_pos_bound n 10 ltac:(lia)) as Hm.
    destruct (digit_char_spec (n mod 10) Hm) as [H1 H2].
    cbn [dec_digits]. destruct (n / 10 =? 0)%Z eqn:E.
    + apply Z.eqb_eq in E.
      exists (String (digit_char (n mod 10)) "").
      split; [reflexivity|]. apply one_digit_spec. lia.
    + assert (0 <= n / 10 < 2 ^ (Z.of_nat fuel + 1)) as Hq.
      { replace (Z.of_nat (S fuel) + 1) with (Z.succ (Z.of_nat fuel + 1))
          in Hn by lia.
        rewrite Z.pow_succ_r in Hn by lia. lia. }
      destruct (IH (n / 10) (String (digit_char (n mod 10)) tail) Hq)
        as [ds [Hds [Hne [Hall Hval]]]].
      exists (ds ++ String (digit_char (n mod 10)) "").
      split; [rewrite Hds, app_string_assoc; reflexivity|].
      split; [destruct ds; discriminate|].
      split.
      { rewrite all_chars_app, Hall. cbn [all_chars]. rewrite H1.
        reflexivity. }
      intro acc. rewrite decimal_value_from_app, Hval.
      cbn [decimal_value_from]. rewrite H2.
      rewrite app_string_length. cbn [String.length].
      rewrite Nat2Z.inj_add. change (Z.of_nat 1) with 1.
      rewrite Z.pow_add_r by lia. lia.
Qed.

Lemma str_of_nat_spec n :
  0 <= n ->
  digit_string (str_of_nat n) /\ decimal_value (str_of_nat n) = n.
Proof.
  intro Hn. unfold str_of_nat.
  assert (0 <= n < 2 ^ (Z.of_nat (Z.to_nat (Z.log2 n)) + 1)) as Hb.
  { split; [exact Hn|]. rewrite Z2Nat.id by apply Z.log2_nonneg.
    destruct (Z.eq_dec n 0) as [->|Hne]; [reflexivity|].
    replace (Z.log2 n + 1) with (Z.succ (Z.log2 n)) by lia.
    apply Z.log2_spec. lia. }
  destruct (dec_digits_spec _ n "" Hb) as [ds [Hds [Hne [Hall Hval]]]].
  assert (ds ++ "" = ds) as Hnil
    by (clear; induction ds as [|a ds IH]; simpl; [|rewrite IH]; reflexivity).
  rewrite Hds, Hnil. split; [split; assumption|].
  unfold decimal_value. rewrite Hval. lia.
Qed.

Lemma zeros_digits k : all_chars is_digit (zeros k) = true.
Proof. induction k as [|k IH]; simpl; [reflexivity | exact IH]. Qed.

Lemma zeros_value k : decimal_value_from 0 (zeros k) = 0.
Proof. induction k as [|k IH]; simpl; [reflexivity | exact IH]. Qed.

Lemma zfill_spec width n :
  0 <= n ->
  digit_string (zfill width (str_of_nat n)) /\
  decimal_value (zfill width (str_of_nat n)) = n.
Proof.
  intro Hn. destruct (str_of_nat_spec n Hn) as [[Hne Hall] Hval].
  unfold zfill. split; [split|].
  - destruct (zeros _); [exact Hne | discriminate].
  - rewrite all_chars_app, zeros_digits, Hall. reflexivity.
  - unfold decimal_value. rewrite decimal_value_from_app, zeros_value.
    exact Hval.
Qed.

Lemma format_d_field width z :
  all_chars is_field_char (format_d width z) = true.
Proof.
  unfold format_d. destruct (z <? 0)%Z eqn:E.
  - apply Z.ltb_lt in E.
    destruct (zfill_spec (width - 1) (- z) ltac:(lia)) as [[_ Hall] _].
    simpl. revert Hall. apply all_chars_impl. exact digit_is_field_char.
  - apply Z.ltb_ge in E.
    destruct (zfill_spec width z E) as [[_ Hall] _].
    revert Hall. apply all_chars_impl. exact digit_is_field_char.
Qed.

(** [int] reads back what [format_d] writes. *)
Lemma py_int_format_d width z : py_int (format_d width z) = Some z.
Proof.
  pose proof (format_d_field width z) as Hf.
  unfold format_d in *. destruct (z <? 0)%Z eqn:E.
  - apply Z.ltb_lt in E.
    destruct (zfill_spec (width - 1) (- z) ltac:(lia)) as [[Hne Hall] Hval].
    unfold py_int. rewrite (strip_field _ Hf).
    change (("-" =? "-")%char) with true. cbv iota.
    rewrite int_digits_value; [|exact Hall | left; exact Hne].
    fold (decimal_value (zfill (width - 1) (str_of_nat (- z)))).
    rewrite Hval. simpl. f_equal. lia.
  - apply Z.ltb_ge in E.
    destruct (zfill_spec width z E) as [Hd Hval].
    rewrite (py_int_digits _ Hd), Hval. reflexivity.
Qed.

(** ** Floors *)

Local Open Scope Z_scope.

Lemma Qfloor_unique (q : Q) (z : Z) :
  (inject_Z z <= q)%Q -> (q < inject_Z (z + 1))%Q -> Qfloor q = z.
Proof.
  intros Hlo Hhi.
  pose proof (Qfloor_le q) as Flo. pose proof (Qlt_floor q) as Fhi.
  assert (Qfloor q < z + 1)
    by (rewrite Zlt_Qlt; eapply Qle_lt_trans; eassumption).
  assert (z < Qfloor q + 1)
    by (rewrite Zlt_Qlt; eapply Qle_lt_trans; eassumption).
  lia.
Qed.

Lemma Qfloor_sub_Z (q : Q) (z : Z) : Qfloor (q - inject_Z z) = Qfloor q - z.
Proof.
  pose proof (Qfloor_le q) as Flo. pose proof (Qlt_floor q) as Fhi.
  apply Qfloor_unique.
  - unfold Z.sub. rewrite inject_Z_plus, inject_Z_opp. lra.
  - replace (Qfloor q - z + 1) with (Qfloor q + 1 + - z) by lia.
    rewrite inject_Z_plus, inject_Z_opp. lra.
Qed.

Lemma Qfloor_div_Z (q : Q) (d : Z) :
  0 < d -> Qfloor (q / inject_Z d) = Qfloor q / d.
Proof.
  intro Hd.
  pose proof (Qfloor_le q) as Flo. pose proof (Qlt_floor q) as Fhi.
  pose proof (Z.div_mod (Qfloor q) d ltac:(lia)) as Hdm.
  pose proof (Z.mod_pos_bound (Qfloor q) d Hd) as Hm.
  assert (0 < inject_Z d)%Q as Hdq by (rewrite <- (Zlt_Qlt 0); exact Hd).
  apply Qfloor_unique.
  - apply Qle_shift_div_l; [exact Hdq|].
    rewrite <- inject_Z_mult.
    eapply Qle_trans; [|exact Flo]. rewrite <- Zle_Qle. lia.
  - apply Qlt_shift_div_r; [exact Hdq|].
    rewrite <- inject_Z_mult.
    eapply Qlt_le_trans; [exact Fhi|]. rewrite <- Zle_Qle. lia.
Qed.

Lemma float_mod_spec (x : Q) (d : Z) :
  0 < d ->
  (float_mod x (inject_Z d) == x - inject_Z (d * (Qfloor x / d)))%Q /\
  Qfloor (float_mod x (inject_Z d)) = Qfloor x mod d /\
  (0 <= float_mod x (inject_Z d))%Q.
Proof.
  intro Hd. unfold float_mod.
  rewrite (Qfloor_div_Z x d Hd), <- inject_Z_mult.
  pose proof (Qfloor_le x) as Flo.
  pose proof (Z.div_mod (Qfloor x) d ltac:(lia)) as Hdm.
  pose proof (Z.mod_pos_bound (Qfloor x) d Hd) as Hm.
  split; [reflexivity|]. split.
  - rewrite Qfloor_sub_Z. lia.
  - assert (inject_Z (d * (Qfloor x / d)) <= inject_Z (Qfloor x))%Q
      by (rewrite <- Zle_Qle; lia).
    lra.
Qed.

Lemma int_of_float_inject (z : Z) : int_of_float (inject_Z z) = z.
Proof. unfold int_of_float. simpl. apply Z.quot_1_r. Qed.

Lemma int_of_float_nonneg (q : Q) :
  (0 <= q)%Q -> int_of_float q = Qfloor q.
Proof.
  intro H. unfold int_of_float. destruct q as [n d].
  unfold Qle in H. simpl in H. simpl.
  apply Z.quot_div_nonneg; lia.
Qed.

(** ** The four fields of a time code *)

Lemma hours_of_spec x : hours_of x = Qfloor x / 3600.
Proof.
  unfold hours_of, float_floordiv. rewrite int_of_float_inject.
  apply (Qfloor_div_Z x 3600). lia.
Qed.

Lemma minutes_of_spec x : minutes_of x = (Qfloor x mod 3600) / 60.
Proof.
  unfold minutes_of, float_floordiv. rewrite int_of_float_inject.
  rewrite (Qfloor_div_Z _ 60) by lia.
  destruct (float_mod_spec x 3600 ltac:(lia)) as [_ [H _]].
  change (inject_Z 3600) with 3600%Q in H. rewrite H. reflexivity.
Qed.

Lemma secs_of_spec x : secs_of x = Qfloor x mod 60.
Proof.
  unfold secs_of.
  destruct (float_mod_spec x 60 ltac:(lia)) as [_ [H1 H2]].
  change (inject_Z 60) with 60%Q in H1, H2.
  rewrite (int_of_float_nonneg _ H2). exact H1.
Qed.

Lemma ms_of_spec x : ms_of x = Qfloor (x * 1000) - 1000 * Qfloor x.
Proof.
  unfold ms_of.
  destruct (float_mod_spec x 1 ltac:(lia)) as [H1 [_ H2]].
  change (inject_Z 1) with 1%Q in H1, H2.
  rewrite int_of_float_nonneg by (apply Qmult_le_0_compat; [exact H2 | lra]).
  rewrite Z.div_1_r, Z.mul_1_l in H1.
  rewrite <- Qfloor_sub_Z. apply Qfloor_comp.
  rewrite H1, inject_Z_mult. change (inject_Z 1000) with 1000%Q. ring.
Qed.


(** * Further properties of the partitioner *)

Local Open Scope Z_scope.
Local Open Scope list_scope.

Section PlannedStarts.

Variable subs : list subtitle.
Variables D O : Z.

Lemma emit_length n starts :
  (List.length (emit subs D n starts) <= List.length starts)%nat.
Proof.
  revert n. induction starts as [|c tl IH]; intro n; simpl; [lia|].
  destruct (select subs c (c + D)); simpl.
  - specialize (IH n). lia.
  - specialize (IH (n + 1)). lia.
Qed.

(** The planned starts of the emitted chunks are the visited planned
    starts that have a selection, in the order of the visit. *)
Lemma emit_planned_starts starts : forall n,
  map planned_start (emit subs D n starts) =
  filter (fun c => match select subs c (c + D) with
                   | [] => false
                   | _ :: _ => true
                   end) starts.
Proof.
  induction starts as [|c tl IH]; intro n; simpl; [reflexivity|].
  destruct (select subs c (c + D)); simpl; [apply IH|].
  f_equal. apply IH.
Qed.

Lemma starts_from_sorted m : forall c0,
  0 < D - O -> StronglySorted Z.lt (starts_from D O m c0).
Proof.
  induction m as [|m IH]; intros c0 Hstep; simpl; constructor.
  - apply IH. exact Hstep.
  - apply Forall_forall. intros x Hx.
    apply starts_from_In in Hx. destruct Hx as [k [_ Hx]]. nia.
Qed.

Lemma filter_sorted (f : Z -> bool) l :
  StronglySorted Z.lt l -> StronglySorted Z.lt (filter f l).
Proof.
  induction 1 as [|a l Hs IH Hall]; simpl; [constructor|].
  destruct (f a); [|exact IH].
  constructor; [exact IH|].
  apply Forall_forall. intros x Hx. apply filter_In in Hx.
  rewrite Forall_forall in Hall. apply Hall. tauto.
Qed.

End PlannedStarts.

(** The step is positive as soon as the loop has made a pass and
    stopped. *)
Lemma pass_step_positive (subs : list subtitle) (cdm om : Z) (m : nat) :
  (forall c, In c (starts_from (cdm * 60) (om * 60) m 0) ->
             (inject_Z c < total_duration_of subs)%Q) ->
  (total_duration_of subs <= inject_Z (Z.of_nat m * (cdm * 60 - om * 60)))%Q ->
  m <> 0%nat ->
  0 < cdm * 60 - om * 60.
Proof.
  intros Hlt Hge Hm. destruct m as [|m]; [congruence|].
  assert (0 < Z.of_nat (S m) * (cdm * 60 - om * 60)) as H.
  { rewrite Zlt_Qlt. eapply Qlt_le_trans; [|exact Hge].
    apply Hlt. left. reflexivity. }
  nia.
Qed.

(** X1.  In any result the planned starts increase strictly along the
    list; each is a multiple [k * (chunk_duration - overlap_duration)],
    [k >= 0], lies below the total duration, and the planned end is the
    planned start plus the chunk duration. *)
Theorem split_srt_by_time_planned_grid (subs : list subtitle) (cdm om : Z)
    (fuel : nat) (cs : list chunk) :
  split_srt_by_time fuel subs cdm om = Some cs ->
  StronglySorted Z.lt (map planned_start cs) /\
  forall c, In c cs ->
    planned_end c = planned_start c + cdm * 60 /\
    (inject_Z (planned_start c) < total_duration_of subs)%Q /\
    exists k, 0 <= k /\ planned_start c = k * (cdm * 60 - om * 60).
Proof.
  intro H. destruct (split_spec _ _ _ _ _ H) as [m [H1 [H2 H3]]].
  split.
  - rewrite H1, emit_planned_starts.
    destruct m as [|m]; [simpl; constructor|].
    apply filter_sorted, starts_from_sorted.
    apply (pass_step_positive subs cdm om (S m) H2 H3). discriminate.
  - intros c Hc. rewrite H1 in Hc.
    destruct (emit_In _ _ _ _ _ Hc) as [c0 [sub [rest [Hin [_ Heq]]]]].
    rewrite Heq. unfold new_chunk. cbn [planned_start planned_end].
    split; [reflexivity|]. split; [apply H2; exact Hin|].
    apply starts_from_In in Hin. destruct Hin as [k [_ Hk]].
    exists (Z.of_nat k). split; [lia | lia].
Qed.

Lemma split_srt_by_time_planned_grid_witness :
  exists cs,
    split_srt_by_time 2 scenario_minutes 30 5 = Some cs /\
    StronglySorted Z.lt (map planned_start cs).
Proof.
  eexists. split; [reflexivity|].
  exact (proj1 (split_srt_by_time_planned_grid scenario_minutes 30 5 2 _
                  eq_refl)).
Defined.

(** X2.  In any result, the time range [start_time], [end_time] of a chunk
    begins before the planned end of the chunk and ends no later than the
    total duration; when no entry of the input ends before it starts, it
    ends at or after the planned start and does not end before it
    begins. *)
Theorem split_srt_by_time_actual_range (subs : list subtitle) (cdm om : Z)
    (fuel : nat) (cs : list chunk) (c : chunk) :
  split_srt_by_time fuel subs cdm om = Some cs ->
  In c cs ->
  (start_time c < inject_Z (planned_end c))%Q /\
  (end_time c <= total_duration_of subs)%Q /\
  ((forall sub, In sub subs -> (sub_start sub <= sub_end sub)%Q) ->
   (inject_Z (planned_start c) <= end_time c)%Q /\
   (start_time c <= end_time c)%Q).
Proof.
  intros H Hc. destruct (split_spec _ _ _ _ _ H) as [m [H1 _]].
  rewrite H1 in Hc.
  destruct (emit_In _ _ _ _ _ Hc) as [c0 [sub [rest [_ [Hsel Heq]]]]].
  simpl in Hsel.
  assert (forall s, In s (sub :: rest) ->
            In s subs /\ in_chunk c0 (c0 + cdm * 60) s = true) as Hmem
    by (intros s Hs; rewrite <- Hsel in Hs; apply select_In in Hs; exact Hs).
  rewrite Heq. unfold new_chunk.
  cbn [start_time end_time planned_start planned_end].
  pose proof (py_min_In (map sub_start rest) (sub_start sub)) as Hmin.
  change (In (py_min (sub_start sub) (map sub_start rest))
             (map sub_start (sub :: rest))) in Hmin.
  apply in_map_iff in Hmin. destruct Hmin as [s1 [Hs1 Hin1]].
  pose proof (py_max_In (map sub_end rest) (sub_end sub)) as Hmax.
  change (In (py_max (sub_end sub) (map sub_end rest))
             (map sub_end (sub :: rest))) in Hmax.
  apply in_map_iff in Hmax. destruct Hmax as [s2 [Hs2 Hin2]].
  split; [|split].
  - rewrite <- Hs1. destruct (Hmem _ Hin1) as [_ Hc1].
    apply in_chunk_true in Hc1. tauto.
  - rewrite <- Hs2. apply total_duration_upper. apply (Hmem _ Hin2).
  - intro Hwf.
    destruct (Hmem sub (or_introl eq_refl)) as [Hsub Hcsub].
    apply in_chunk_true in Hcsub. destruct Hcsub as [Hlo _].
    pose proof (Hwf _ Hsub) as Hse.
    assert (sub_end sub <= py_max (sub_end sub) (map sub_end rest))%Q as Hup
      by (apply py_max_upper; left; reflexivity).
    assert (py_min (sub_start sub) (map sub_start rest) <= sub_start sub)%Q
      as Hdown by (apply py_min_lower; left; reflexivity).
    split.
    + destruct Hlo as [Hlo|Hlo]; lra.
    + lra.
Qed.

Lemma split_srt_by_time_actual_range_witness :
  let c := {| ch_number := 2; start_time := 2400; end_time := 2700;
              ch_subtitles := [ent 3 2400 2700];
              planned_start := 1500; planned_end := 3300 |} in
  (start_time c < inject_Z (planned_end c))%Q /\
  (inject_Z (planned_start c) <= end_time c)%Q.
Proof.
  intro c.
  destruct (split_srt_by_time_actual_range scenario_minutes 30 5 2 _ c
              eq_refl (or_intror (or_introl eq_refl))) as [H1 [_ H3]].
  split; [exact H1|]. apply H3.
  intros sub [Hs|[Hs|[Hs|[]]]]; subst sub; discriminate.
Defined.

(** X3.  The number of chunks in a result is bounded by the total
    duration: a result of [n > 0] chunks has
    [(n - 1) * (chunk_duration - overlap_duration) < total_duration], and
    the step is positive. *)
Theorem split_srt_by_time_count (subs : list subtitle) (cdm om : Z)
    (fuel : nat) (cs : list chunk) :
  split_srt_by_time fuel subs cdm om = Some cs ->
  cs <> [] ->
  0 < cdm * 60 - om * 60 /\
  (inject_Z ((Z.of_nat (List.length cs) - 1) * (cdm * 60 - om * 60))
   < total_duration_of subs)%Q.
Proof.
  intros H Hne. destruct (split_spec _ _ _ _ _ H) as [m [H1 [H2 H3]]].
  pose proof (emit_length subs (cdm * 60) 1
                (starts_from (cdm * 60) (om * 60) m 0)) as Hlen.
  rewrite <- H1, starts_from_length in Hlen.
  assert (m <> 0%nat) as Hm.
  { intro Hm. subst m. simpl in H1. congruence. }
  pose proof (pass_step_positive subs cdm om m H2 H3 Hm) as Hstep.
  split; [exact Hstep|].
  assert (inject_Z (Z.of_nat (m - 1) * (cdm * 60 - om * 60))
          < total_duration_of subs)%Q as Hlast.
  { apply H2. apply starts_from_In. exists (m - 1)%nat. split; lia. }
  eapply Qle_lt_trans; [|exact Hlast].
  rewrite <- Zle_Qle.
  destruct cs as [|c0 cs']; [congruence|]. simpl List.length in *. nia.
Qed.

Lemma split_srt_by_time_count_witness :
  exists cs,
    split_srt_by_time 2 scenario_minutes 30 5 = Some cs /\
    (inject_Z ((Z.of_nat (List.length cs) - 1) * (30 * 60 - 5 * 60))
     < total_duration_of scenario_minutes)%Q.
Proof.
  eexists. split; [reflexivity|].
  apply (split_srt_by_time_count scenario_minutes 30 5 2 _ eq_refl).
  discriminate.
Defined.

(** X4.  For all minutes [chunk > overlap >= 0], the overlap 0 included,
    [split_srt_by_time] returns, and every entry that starts at or after 0
    and before the total duration is in a chunk whose planned range
    contains its start. *)
Theorem split_srt_by_time_holds_start (subs : list subtitle) (cdm om : Z) :
  0 <= om -> om < cdm ->
  exists cs,
    (forall fuel, (enough_fuel subs <= fuel)%nat ->
       split_srt_by_time fuel subs cdm om = Some cs) /\
    forall sub,
      In sub subs ->
      (0 <= sub_start sub)%Q -> (sub_start sub < total_duration_of subs)%Q ->
      exists c,
        In c cs /\ In sub (ch_subtitles c) /\
        (inject_Z (planned_start c) <= sub_start sub)%Q /\
        (sub_start sub < inject_Z (planned_end c))%Q.
Proof.
  intros Hom Hlt.
  destruct (split_terminates subs cdm om Hlt) as [cs Hcs].
  exists cs. split; [exact Hcs|].
  destruct (split_spec subs cdm om _ cs (Hcs _ (Nat.le_refl _)))
    as [m [H1 [H2 H3]]].
  intros sub Hin H0 HT.
  destruct (grid_below (sub_start sub) (cdm * 60 - om * 60) ltac:(lia))
    as [k [Hk1 [Hk2 Hk3]]].
  specialize (Hk3 H0).
  set (c0 := k * (cdm * 60 - om * 60)) in *.
  assert (In c0 (starts_from (cdm * 60) (om * 60) m 0)) as Hvis.
  { apply (visited_iff subs cdm om m); [lia | exact H2 | exact H3|].
    exists k. split; [exact Hk3|]. split; [reflexivity|].
    eapply Qle_lt_trans; eassumption. }
  assert (sub_start sub < inject_Z (c0 + cdm * 60))%Q as Hend.
  { eapply Qlt_le_trans; [exact Hk2|]. rewrite <- Zle_Qle. lia. }
  assert (In sub (select subs c0 (c0 + cdm * 60))) as Hsel.
  { apply select_In. split; [exact Hin|]. apply in_chunk_true.
    split; [left; exact Hk1 | exact Hend]. }
  destruct (select subs c0 (c0 + cdm * 60)) as [|s rest] eqn:E;
    [destruct Hsel|].
  destruct (emit_complete subs (cdm * 60) _ 1 c0 s rest Hvis E) as [n' Hn'].
  exists (new_chunk (cdm * 60) n' c0 s rest).
  rewrite H1. split; [exact Hn'|]. split; [exact Hsel|].
  split; [exact Hk1 | exact Hend].
Qed.

Lemma split_srt_by_time_holds_start_witness :
  exists cs c,
    split_srt_by_time (enough_fuel scenario_minutes) scenario_minutes 30 0
    = Some cs /\
    In c cs /\ In (ent 3 2400 2700) (ch_subtitles c).
Proof.
  destruct (split_srt_by_time_holds_start scenario_minutes 30 0)
    as [cs [H1 H2]]; [lia | lia |].
  destruct (H2 (ent 3 2400 2700)) as [c [Hc [Hin _]]].
  - right; right; left; reflexivity.
  - discriminate.
  - reflexivity.
  - exists cs, c. split; [apply H1; apply Nat.le_refl|]. split; assumption.
Defined.

(** * Further properties of the time codes *)

Lemma time_fields_in_range (seconds : Q) :
  (0 <= seconds)%Q ->
  0 <= hours_of seconds /\
  0 <= minutes_of seconds < 60 /\
  0 <= secs_of seconds < 60 /\
  0 <= ms_of seconds < 1000 /\
  hours_of seconds * 3600 + minutes_of seconds * 60 + secs_of seconds
  = Qfloor seconds /\
  ms_of seconds = Qfloor ((seconds - inject_Z (Qfloor seconds)) * 1000).
Proof.
  intro H0.
  rewrite hours_of_spec, minutes_of_spec, secs_of_spec, ms_of_spec.
  pose proof (Qfloor_le seconds) as Flo.
  pose proof (Qlt_floor seconds) as Fhi.
  pose proof (Qfloor_le (seconds * 1000)) as Mlo.
  pose proof (Qlt_floor (seconds * 1000)) as Mhi.
  rewrite inject_Z_plus in Fhi, Mhi. change (inject_Z 1) with 1%Q in Fhi, Mhi.
  assert (0 <= Qfloor seconds) as Hn.
  { assert (0 < Qfloor seconds + 1); [|lia].
    rewrite Zlt_Qlt, inject_Z_plus. change (inject_Z 1) with 1%Q.
    change (inject_Z 0) with 0%Q. lra. }
  pose proof (Z.div_mod (Qfloor seconds) 3600 ltac:(lia)) as H1.
  pose proof (Z.mod_pos_bound (Qfloor seconds) 3600 ltac:(lia)) as B1.
  pose proof (Z.div_mod (Qfloor seconds mod 3600) 60 ltac:(lia)) as H2.
  pose proof (Z.mod_pos_bound (Qfloor seconds mod 3600) 60 ltac:(lia)) as B2.
  pose proof (Z.div_mod (Qfloor seconds) 60 ltac:(lia)) as H3.
  pose proof (Z.mod_pos_bound (Qfloor seconds) 60 ltac:(lia)) as B3.
  assert (1000 * Qfloor seconds <= Qfloor (seconds * 1000)) as Hm1.
  { assert (1000 * Qfloor seconds < Qfloor (seconds * 1000) + 1); [|lia].
    rewrite Zlt_Qlt, inject_Z_plus, inject_Z_mult.
    change (inject_Z 1) with 1%Q. change (inject_Z 1000) with 1000%Q. lra. }
  assert (Qfloor (seconds * 1000) < 1000 * Qfloor seconds + 1000) as Hm2.
  { rewrite Zlt_Qlt, inject_Z_plus, inject_Z_mult.
    change (inject_Z 1000) with 1000%Q. lra. }
  split; [apply Z.div_pos; lia|].
  split; [lia|]. split; [lia|]. split; [lia|]. split; [lia|].
  rewrite <- Qfloor_sub_Z. apply Qfloor_comp.
  rewrite inject_Z_mult. change (inject_Z 1000) with 1000%Q. ring.
Qed.




Lemma dec_digits_length fuel : forall n tail (k : nat),
  0 <= n < 10 ^ Z.of_nat (S k) ->
  (String.length (dec_digits fuel n tail) <= S k + String.length tail)%nat.
Proof.
  induction fuel as [|fuel IH]; intros n tail k Hn; cbn [dec_digits].
  - cbn [String.length]. lia.
  - destruct (n / 10 =? 0) eqn:E.
    + cbn [String.length]. lia.
    + apply Z.eqb_neq in E.
      pose proof (Z.div_mod n 10 ltac:(lia)) as Hdm.
      pose proof (Z.mod_pos_bound n 10 ltac:(lia)) as Hm.
      destruct k as [|k].
      * change (10 ^ Z.of_nat 1) with 10 in Hn.
        assert (n / 10 = 0) by (apply Z.div_small; lia). congruence.
      * assert (0 <= n / 10 < 10 ^ Z.of_nat (S k)) as Hq.
        { replace (Z.of_nat (S (S k))) with (Z.succ (Z.of_nat (S k)))
            in Hn by lia.
          rewrite Z.pow_succ_r in Hn by lia. lia. }
        specialize (IH (n / 10) (String (digit_char (n mod 10)) tail) k Hq).
        cbn [String.length] in IH. lia.
Qed.

(** A number below [10 ^ width] is written on exactly [width] digits. *)
Lemma format_d_width (width : nat) (z : Z) :
  0 <= z < 10 ^ Z.of_nat (S width) ->
  digit_string (format_d (S width) z) /\
  String.length (format_d (S width) z) = S width.
Proof.
  intro Hz. unfold format_d.
  assert ((z <? 0) = false) as -> by (apply Z.ltb_ge; lia).
  destruct (zfill_spec (S width) z ltac:(lia)) as [Hd _].
  split; [exact Hd|].
  unfold zfill, str_of_nat.
  pose proof (dec_digits_length (Z.to_nat (Z.log2 z)) z "" width Hz) as Hlen.
  cbn [String.length] in Hlen.
  rewrite app_string_length.
  assert (forall k, String.length (zeros k) = k) as Hzeros
    by (induction k as [|k IHk]; simpl; [|rewrite IHk]; reflexivity).
  rewrite Hzeros. lia.
Qed.



(** * Further properties of the parser *)

Lemma lstrip_spaces s : all_chars is_space s = true -> lstrip s = ""%string.
Proof.
  induction s as [|a s IH]; simpl; [reflexivity|].
  rewrite andb_true_iff. intros [Ha Hs]. rewrite Ha. apply IH. exact Hs.
Qed.

(** X7.  A text of white space only, the empty text included, has no
    entries: [parse_srt_file] returns the empty list and raises nothing. *)
Theorem parse_srt_file_blank (content : string) :
  all_chars is_space content = true -> parse_srt_file content = Ok [].
Proof.
  intro H. unfold parse_srt_file, strip.
  rewrite (lstrip_spaces _ H). reflexivity.
Qed.

Lemma parse_srt_file_blank_witness :
  parse_srt_file ("  " ++ newline ++ newline ++ " ")%string = Ok [].
Proof. apply parse_srt_file_blank. reflexivity. Defined.



Lemma parse_blocks_entries blocks : forall acc subs,
  parse_blocks blocks acc = Ok subs ->
  exists new,
    subs = acc ++ new /\
    Forall2 (fun block sub => parse_block block = Ok (Some sub))
      (filter structurally_valid blocks) new.
Proof.
  induction blocks as [|b rest IH]; intros acc subs H; simpl in H.
  - inversion H. exists []. split; [symmetry; apply app_nil_r | constructor].
  - simpl. destruct (structurally_valid b) eqn:E.
    + destruct (parse_block_valid _ E) as [Hr|[sub Hs]].
      * rewrite Hr in H. discriminate.
      * rewrite Hs in H. simpl in H. apply IH in H.
        destruct H as [new [H1 H2]]. exists (sub :: new).
        split; [rewrite H1, <- app_assoc; reflexivity|].
        constructor; assumption.
    + rewrite (parse_block_invalid _ E) in H. simpl in H.
      apply IH in H. exact H.
Qed.



(** * Saving a chunk and parsing it again *)

Local Open Scope string_scope.

(** ** [split] at a separator of several characters *)

Lemma prefix_cons c sep a s :
  prefix (String c sep) (String a s) = ((a =? c)%char && prefix sep s)%bool.
Proof.
  simpl. destruct (ascii_dec c a) as [->|Hne].
  - rewrite Ascii.eqb_refl. reflexivity.
  - assert ((a =? c)%char = false) as -> by (apply Ascii.eqb_neq; congruence).
    reflexivity.
Qed.

Lemma prefix_app sep y : prefix sep (sep ++ y) = true.
Proof.
  induction sep as [|c sep IH]; [destruct y; reflexivity|].
  change (String c sep ++ y) with (String c (sep ++ y)).
  rewrite prefix_cons, Ascii.eqb_refl. exact IH.
Qed.

Lemma split_parts_skip sep z : forall y,
  split_parts sep (String.length z) (z ++ y) = split_parts sep 0 y.
Proof.
  induction z as [|a z IH]; intro y; [reflexivity|].
  cbn [String.length append split_parts]. apply IH.
Qed.

Lemma split_parts_at_sep c sep y :
  split_parts (String c sep) 0 (String c sep ++ y)
  = (EmptyString, split (String c sep) y).
Proof.
  change (String c sep ++ y) with (String c (sep ++ y)).
  cbn [split_parts].
  change (String c (sep ++ y)) with (String c sep ++ y).
  rewrite prefix_app.
  replace (String.length (String c sep) - 1)%nat with (String.length sep)
    by (cbn [String.length]; lia).
  rewrite split_parts_skip.
  unfold split. destruct (split_parts (String c sep) 0 y). reflexivity.
Qed.

(** A text in which the first character of the separator does not occur
    is one part. *)
Lemma split_head_none c sep x :
  all_chars (differs c) x = true ->
  split_parts (String c sep) 0 x = (x, []).
Proof.
  induction x as [|a x IH]; [reflexivity|].
  intro H. simpl in H. apply andb_true_iff in H. destruct H as [Ha Hx].
  unfold differs in Ha. apply negb_true_iff in Ha.
  cbn [split_parts]. rewrite prefix_cons, Ha, (IH Hx). reflexivity.
Qed.

Lemma split_head_app c sep x y :
  all_chars (differs c) x = true ->
  split (String c sep) (x ++ String c sep ++ y)
  = x :: split (String c sep) y.
Proof.
  intro H. unfold split at 1.
  assert (split_parts (String c sep) 0 (x ++ String c sep ++ y)
          = (x, split (String c sep) y)) as ->; [|reflexivity].
  induction x as [|a x IH]; [apply split_parts_at_sep|].
  simpl in H. apply andb_true_iff in H. destruct H as [Ha Hx].
  unfold differs in Ha. apply negb_true_iff in Ha.
  change (String a x ++ String c sep ++ y)
    with (String a (x ++ String c sep ++ y)).
  cbn [split_parts]. rewrite prefix_cons, Ha, (IH Hx). reflexivity.
Qed.

Lemma split_head_one c sep x :
  all_chars (differs c) x = true -> split (String c sep) x = [x].
Proof.
  intro H. unfold split. rewrite (split_head_none _ _ _ H). reflexivity.
Qed.

Lemma contains_prefix sep s : prefix sep s = true -> contains sep s = true.
Proof. destruct s; cbn [contains]; intros ->; reflexivity. Qed.

Lemma contains_app sep x y : contains sep (x ++ sep ++ y) = true.
Proof.
  induction x as [|a x IH].
  - apply contains_prefix. exact (prefix_app sep y).
  - change (String a x ++ sep ++ y) with (String a (x ++ sep ++ y)).
    cbn [contains]. rewrite IH. apply orb_true_r.
Qed.

(** ** Empty lines *)

Lemma two_newlines :
  newline ++ newline = String "010"%char (String "010"%char EmptyString).
Proof. reflexivity. Qed.

Lemma prefix_blank_line a s :
  prefix (String "010"%char (String "010"%char EmptyString)) (String a s)
  = ((a =? "010")%char
     && match s with
        | EmptyString => false
        | String b _ => (b =? "010")%char
        end)%bool.
Proof.
  rewrite prefix_cons. f_equal.
  destruct s as [|b s]; [reflexivity|].
  rewrite prefix_cons. destruct s; cbn [prefix]; apply andb_true_r.
Qed.

(** No empty line begins at the head of a tight text, whatever follows
    the text. *)
Lemma tight_head a x rest :
  tight (String a x) = true ->
  prefix (String "010"%char (String "010"%char EmptyString))
    (String a (x ++ String "010"%char rest)) = false.
Proof.
  intro H. cbn [tight] in H. apply andb_true_iff in H. destruct H as [H _].
  rewrite prefix_blank_line.
  destruct (a =? "010")%char; [|reflexivity].
  destruct x as [|b x]; [discriminate|].
  cbn [append]. apply negb_true_iff in H. rewrite H. reflexivity.
Qed.

Lemma tight_tail a x : tight (String a x) = true -> tight x = true.
Proof.
  intro H. cbn [tight] in H. apply andb_true_iff in H. tauto.
Qed.

Lemma split_tight_app x y :
  tight x = true ->
  split (newline ++ newline) (x ++ (newline ++ newline) ++ y)
  = x :: split (newline ++ newline) y.
Proof.
  rewrite two_newlines. intro H. unfold split at 1.
  assert (split_parts (String "010"%char (String "010"%char ""))
            0 (x ++ String "010"%char (String "010"%char "") ++ y)
          = (x, split (String "010"%char (String "010"%char "")) y)) as ->;
    [|reflexivity].
  induction x as [|a x IH]; [apply split_parts_at_sep|].
  change (String a x ++ String "010"%char (String "010"%char "") ++ y)
    with (String a (x ++ String "010"%char (String "010"%char "") ++ y)).
  cbn [split_parts].
  change (String "010"%char (String "010"%char "") ++ y)
    with (String "010"%char (String "010"%char y)).
  rewrite (tight_head a x _ H).
  change (String "010"%char (String "010"%char y))
    with (String "010"%char (String "010"%char "") ++ y).
  rewrite (IH (tight_tail _ _ H)). reflexivity.
Qed.

Lemma split_tight_one x :
  tight x = true -> split (newline ++ newline) x = [x].
Proof.
  rewrite two_newlines. intro H. unfold split.
  assert (split_parts (String "010"%char (String "010"%char "")) 0 x
          = (x, [])) as ->; [|reflexivity].
  induction x as [|a x IH]; [reflexivity|].
  cbn [split_parts]. rewrite prefix_blank_line.
  pose proof H as H'. cbn [tight] in H'. apply andb_true_iff in H'.
  destruct H' as [Ha Hx]. rewrite (IH Hx).
  destruct (a =? "010")%char; [|reflexivity].
  destruct x as [|b x]; [discriminate|].
  apply negb_true_iff in Ha. rewrite Ha. reflexivity.
Qed.

Lemma tight_plain x y :
  all_chars (differs "010"%char) x = true -> tight y = true ->
  tight (x ++ y) = true.
Proof.
  intros Hx Hy. induction x as [|a x IH]; [exact Hy|].
  simpl in Hx. apply andb_true_iff in Hx. destruct Hx as [Ha Hx].
  unfold differs in Ha. apply negb_true_iff in Ha.
  cbn [append tight]. rewrite Ha, (IH Hx). reflexivity.
Qed.

Lemma tight_newline y :
  y <> EmptyString -> prefix newline y = false -> tight y = true ->
  tight (String "010"%char y) = true.
Proof.
  intros Hne Hp Hy. destruct y as [|b y]; [congruence|].
  change newline with (String "010"%char "") in Hp.
  rewrite prefix_char in Hp.
  cbn [tight] in Hy |- *. rewrite Hp in Hy |- *. exact Hy.
Qed.

(** ** [split] and [join] at the line feed *)

Lemma join_cons sep a p ps :
  join sep (String a p :: ps) = String a (join sep (p :: ps)).
Proof. destruct ps; reflexivity. Qed.

Lemma join_split_char c t :
  join (String c "") (split (String c "") t) = t.
Proof.
  unfold split. induction t as [|a t IH]; [reflexivity|].
  cbn [split_parts]. rewrite prefix_char.
  change (String.length (String c "") - 1)%nat with 0%nat.
  destruct (split_parts (String c "") 0 t) as [p ps].
  destruct (a =? c)%char eqn:E.
  - apply Ascii.eqb_eq in E. subst a.
    change (join (String c "") ("" :: p :: ps))
      with (String c (join (String c "") (p :: ps))).
    rewrite IH. reflexivity.
  - rewrite join_cons, IH. reflexivity.
Qed.

(** ** White space at the end *)

Lemma rstrip_app x y :
  rstrip y <> EmptyString -> rstrip (x ++ y) = x ++ rstrip y.
Proof.
  intro H. induction x as [|a x IH]; [reflexivity|].
  cbn [append rstrip]. rewrite IH.
  destruct (x ++ rstrip y) eqn:E; [|reflexivity].
  destruct x; [|discriminate]. simpl in E. congruence.
Qed.

Lemma rstrip_spaces w : all_chars is_space w = true -> rstrip w = EmptyString.
Proof.
  induction w as [|a w IH]; [reflexivity|].
  simpl. rewrite andb_true_iff. intros [Ha Hw]. rewrite (IH Hw), Ha.
  reflexivity.
Qed.

Lemma rstrip_app_spaces x w :
  all_chars is_space w = true -> rstrip (x ++ w) = rstrip x.
Proof.
  intro H. induction x as [|a x IH]; [apply rstrip_spaces; exact H|].
  cbn [append rstrip]. rewrite IH. reflexivity.
Qed.

(** ** The characters of what is written *)

Lemma field_nonspace s :
  all_chars is_field_char s = true ->
  all_chars (fun a => negb (is_space a)) s = true.
Proof.
  apply all_chars_impl. intros a Ha.
  apply field_char_plain in Ha. destruct Ha as [-> _]. reflexivity.
Qed.

Lemma nonspace_differs c s :
  is_space c = true ->
  all_chars (fun a => negb (is_space a)) s = true ->
  all_chars (differs c) s = true.
Proof.
  intro Hc. apply all_chars_impl. intros a Ha.
  unfold differs. apply negb_true_iff. apply Ascii.eqb_neq.
  intro Heq. subst a. rewrite Hc in Ha. discriminate.
Qed.

Lemma time_code_nonspace x :
  all_chars (fun a => negb (is_space a)) (seconds_to_srt_time x) = true.
Proof.
  unfold seconds_to_srt_time.
  rewrite !all_chars_app, !(field_nonspace _ (format_d_field _ _)).
  reflexivity.
Qed.

Lemma format_d_nonempty width z : format_d width z <> EmptyString.
Proof.
  unfold format_d. destruct (z <? 0)%Z eqn:E; [discriminate|].
  apply Z.ltb_ge in E. destruct (zfill_spec width z E) as [[Hne _] _].
  exact Hne.
Qed.

Lemma time_code_nonempty x : seconds_to_srt_time x <> EmptyString.
Proof.
  unfold seconds_to_srt_time.
  pose proof (format_d_nonempty 2 (hours_of x)) as H.
  destruct (format_d 2 (hours_of x)); [congruence | discriminate].
Qed.

Lemma parse_time_code x :
  parse_srt_time (seconds_to_srt_time x) = Ok (written_time x).
Proof.
  unfold seconds_to_srt_time, written_time.
  apply parse_srt_time_fields;
    first [apply format_d_field | apply py_int_format_d].
Qed.

Lemma str_of_int_format z : str_of_int z = format_d 0 z.
Proof. unfold str_of_int, format_d. destruct (z <? 0)%Z; reflexivity. Qed.

(** A text that begins with a character that is not white space and ends
    with a stripped, non-empty text is its own [strip]. *)
Lemma strip_around a x y :
  is_space a = false -> rstrip y = y -> y <> EmptyString ->
  strip (String a x ++ y) = String a x ++ y.
Proof.
  intros Ha Hy Hne. unfold strip.
  change (String a x ++ y) with (String a (x ++ y)).
  rewrite (lstrip_id _ _ Ha).
  change (String a (x ++ y)) with (String a x ++ y).
  rewrite rstrip_app by (rewrite Hy; exact Hne).
  rewrite Hy. reflexivity.
Qed.

Lemma nonspace_head s :
  s <> EmptyString ->
  all_chars (fun a => negb (is_space a)) s = true ->
  exists a x, s = String a x /\ is_space a = false.
Proof.
  intros Hne H. destruct s as [|a x]; [congruence|].
  simpl in H. apply andb_true_iff in H. destruct H as [Ha _].
  apply negb_true_iff in Ha. exists a, x. split; [reflexivity | exact Ha].
Qed.

(** ** One block *)

Section WrittenBlock.

Variable i : Z.
Variable sub : subtitle.
Hypothesis Htext : block_text (sub_text sub).

Local Abbreviation first_line := (str_of_int i).
Local Abbreviation times :=
  (seconds_to_srt_time (sub_start sub) ++ " --> "
   ++ seconds_to_srt_time (sub_end sub)).
Local Abbreviation block := (srt_block first_line times (sub_text sub)).

Lemma first_line_nonspace :
  all_chars (fun a => negb (is_space a)) first_line = true.
Proof. rewrite str_of_int_format. apply field_nonspace, format_d_field. Qed.

Lemma times_nonspace_but_blank :
  all_chars (differs "010"%char) times = true.
Proof.
  rewrite !all_chars_app.
  rewrite !(nonspace_differs "010"%char _ eq_refl (time_code_nonspace _)).
  reflexivity.
Qed.

Lemma block_lines :
  split newline block
  = (first_line :: times :: split newline (sub_text sub))%list.
Proof.
  unfold srt_block.
  change newline with (String "010"%char "").
  change (first_line ++ String "010"%char "" ++ times
          ++ String "010"%char "" ++ sub_text sub)
    with (first_line ++ String "010"%char
            (times ++ String "010"%char (sub_text sub))).
  rewrite split_char_app
    by (apply (nonspace_differs "010"%char _ eq_refl), first_line_nonspace).
  rewrite split_char_app by apply times_nonspace_but_blank.
  reflexivity.
Qed.

Lemma block_strip : strip block = block.
Proof.
  destruct Htext as [Hne [_ [_ Hr]]].
  destruct (nonspace_head first_line) as [a [x [Hx Ha]]].
  - rewrite str_of_int_format. apply format_d_nonempty.
  - apply first_line_nonspace.
  - unfold srt_block. rewrite Hx.
    replace (String a x ++ newline ++ times ++ newline ++ sub_text sub)
      with (String a (x ++ newline ++ times ++ newline) ++ sub_text sub)
      by (cbn [append]; rewrite !app_string_assoc; reflexivity).
    apply strip_around; assumption.
Qed.

Lemma block_tight : tight block = true.
Proof.
  destruct Htext as [Hne [Hp [Ht _]]].
  unfold srt_block. change newline with (String "010"%char "") in *.
  change (first_line ++ String "010"%char "" ++ times
          ++ String "010"%char "" ++ sub_text sub)
    with (first_line ++ String "010"%char
            (times ++ String "010"%char (sub_text sub))).
  apply tight_plain;
    [apply (nonspace_differs "010"%char _ eq_refl), first_line_nonspace|].
  apply tight_newline.
  - pose proof (time_code_nonempty (sub_start sub)) as H.
    destruct (seconds_to_srt_time (sub_start sub)); [congruence | discriminate].
  - destruct (nonspace_head _ (time_code_nonempty (sub_start sub))
                (time_code_nonspace (sub_start sub))) as [a [x [Hx Ha]]].
    rewrite Hx. cbn [append].
    change newline with (String "010"%char ""). rewrite prefix_char.
    apply Ascii.eqb_neq. intro Heq. subst a. discriminate.
  - apply tight_plain; [apply times_nonspace_but_blank|].
    apply tight_newline; assumption.
Qed.

Lemma parse_written_block :
  parse_block block
  = Ok (Some {| sub_number := i;
                sub_start := written_time (sub_start sub);
                sub_end := written_time (sub_end sub);
                sub_text := sub_text sub |}).
Proof.
  unfold parse_block. rewrite block_strip, block_lines.
  pose proof (join_split_char "010"%char (sub_text sub)) as Hjoin.
  change (String "010"%char "") with newline in Hjoin.
  destruct (split newline (sub_text sub)) as [|p ps] eqn:E.
  { unfold split in E. destruct (split_parts newline 0 (sub_text sub)).
    discriminate. }
  cbn [List.length Nat.leb nth skipn].
  rewrite str_of_int_format, py_int_format_d, contains_app.
  rewrite (split_head_app " "%char "--> ")
    by (apply (nonspace_differs " "%char _ eq_refl), time_code_nonspace).
  rewrite (split_head_one " "%char "--> ")
    by (apply (nonspace_differs " "%char _ eq_refl), time_code_nonspace).
  rewrite !(strip_id _ (time_code_nonspace _)), !parse_time_code.
  cbn [bind]. rewrite Hjoin. reflexivity.
Qed.

End WrittenBlock.

(** ** The whole text *)

Lemma write_entries_cons i sub rest :
  write_entries i (sub :: rest)
  = srt_block (str_of_int i)
      (seconds_to_srt_time (sub_start sub) ++ " --> "
       ++ seconds_to_srt_time (sub_end sub))
      (sub_text sub)
    ++ (newline ++ newline) ++ write_entries (i + 1) rest.
Proof.
  cbn [write_entries]. unfold write_entry, srt_block.
  rewrite !app_string_assoc. reflexivity.
Qed.

Lemma join_two sep b b' bs :
  join sep (b :: b' :: bs) = b ++ sep ++ join sep (b' :: bs).
Proof. reflexivity. Qed.

Lemma written_rstrip subs : forall i,
  subs <> []%list ->
  Forall (fun sub => block_text (sub_text sub)) subs ->
  rstrip (write_entries i subs)
  = join (newline ++ newline) (written_blocks i subs) /\
  join (newline ++ newline) (written_blocks i subs) <> EmptyString.
Proof.
  induction subs as [|sub rest IH]; intros i Hne Hall; [congruence|].
  inversion Hall as [|s l Hsub Hrest]; subst.
  pose proof (block_strip i sub Hsub) as Hstrip.
  assert (srt_block (str_of_int i)
            (seconds_to_srt_time (sub_start sub) ++ " --> "
             ++ seconds_to_srt_time (sub_end sub)) (sub_text sub)
          <> EmptyString) as Hblock.
  { unfold srt_block. pose proof (format_d_nonempty 0 i) as H.
    rewrite str_of_int_format.
    destruct (format_d 0 i); [congruence | discriminate]. }
  assert (rstrip (srt_block (str_of_int i)
            (seconds_to_srt_time (sub_start sub) ++ " --> "
             ++ seconds_to_srt_time (sub_end sub)) (sub_text sub))
          = srt_block (str_of_int i)
              (seconds_to_srt_time (sub_start sub) ++ " --> "
               ++ seconds_to_srt_time (sub_end sub)) (sub_text sub)) as Hr.
  { destruct Hsub as [Hne' [_ [_ Hr']]]. unfold srt_block.
    rewrite <- !app_string_assoc. rewrite rstrip_app; rewrite Hr';
      [reflexivity | exact Hne']. }
  rewrite write_entries_cons.
  destruct rest as [|sub' rest'].
  - cbn [write_entries written_blocks join].
    rewrite <- app_string_assoc, rstrip_app_spaces by reflexivity.
    split; [|exact Hblock].
    rewrite rstrip_app_spaces by reflexivity. exact Hr.
  - destruct (IH (i + 1) ltac:(discriminate) Hrest) as [IH1 IH2].
    cbn [written_blocks]. rewrite join_two.
    cbn [written_blocks] in IH1, IH2.
    split.
    + rewrite <- app_string_assoc.
      rewrite rstrip_app by (rewrite IH1; exact IH2).
      rewrite IH1, app_string_assoc. reflexivity.
    + intro H. apply Hblock.
      destruct (srt_block _ _ _); [reflexivity | discriminate].
Qed.

Lemma written_strip subs i :
  subs <> []%list ->
  Forall (fun sub => block_text (sub_text sub)) subs ->
  strip (write_entries i subs)
  = join (newline ++ newline) (written_blocks i subs).
Proof.
  intros Hne Hall. unfold strip.
  destruct (written_rstrip subs i Hne Hall) as [H _].
  destruct subs as [|sub rest]; [congruence|].
  assert (lstrip (write_entries i (sub :: rest))
          = write_entries i (sub :: rest)) as ->; [|exact H].
  rewrite write_entries_cons. unfold srt_block.
  destruct (nonspace_head (str_of_int i)) as [a [x [Hx Ha]]].
  - rewrite str_of_int_format. apply format_d_nonempty.
  - apply first_line_nonspace.
  - rewrite Hx. cbn [append]. apply lstrip_id. exact Ha.
Qed.

Lemma split_join_blocks bs :
  bs <> []%list -> Forall (fun b => tight b = true) bs ->
  split (newline ++ newline) (join (newline ++ newline) bs) = bs.
Proof.
  induction bs as [|b bs IH]; intros Hne Hall; [congruence|].
  inversion Hall as [|b0 l Hb Hbs]; subst.
  destruct bs as [|b' bs'].
  - cbn [join]. apply split_tight_one. exact Hb.
  - rewrite join_two, (split_tight_app _ _ Hb).
    rewrite IH; [reflexivity | discriminate | exact Hbs].
Qed.

Lemma written_blocks_tight subs : forall i,
  Forall (fun sub => block_text (sub_text sub)) subs ->
  Forall (fun b => tight b = true) (written_blocks i subs).
Proof.
  induction subs as [|sub rest IH]; intros i Hall; cbn [written_blocks];
    constructor; inversion Hall; subst.
  - apply block_tight. assumption.
  - apply IH. assumption.
Qed.

Lemma parse_written_blocks subs : forall i acc,
  Forall (fun sub => block_text (sub_text sub)) subs ->
  parse_blocks (written_blocks i subs) acc = Ok (acc ++ reread i subs)%list.
Proof.
  induction subs as [|sub rest IH]; intros i acc Hall.
  - cbn [written_blocks parse_blocks reread]. rewrite app_nil_r. reflexivity.
  - inversion Hall as [|s l Hsub Hrest]; subst.
    cbn [written_blocks parse_blocks reread].
    rewrite (parse_written_block i sub Hsub). cbn [bind].
    rewrite (IH _ _ Hrest), <- app_assoc. reflexivity.
Qed.



(** * The texts the parser returns *)

(** ** Parts of a text split at the empty lines *)

Lemma no_blank_line_tail a s :
  no_blank_line (String a s) = true -> no_blank_line s = true.
Proof. cbn [no_blank_line]. rewrite andb_true_iff. tauto. Qed.

Lemma no_blank_line_app_r x y :
  no_blank_line (x ++ y) = true -> no_blank_line y = true.
Proof.
  induction x as [|a x IH]; [tauto|].
  cbn [append]. intro H. apply IH. exact (no_blank_line_tail _ _ H).
Qed.

Lemma first_part_head sep s b p ps :
  split_parts sep 0 s = (String b p, ps) -> exists s', s = String b s'.
Proof.
  destruct s as [|a s]; cbn [split_parts]; [discriminate|].
  destruct (prefix sep (String a s)).
  - destruct (split_parts sep _ s). discriminate.
  - destruct (split_parts sep 0 s). intro H. inversion H. subst.
    eexists. reflexivity.
Qed.

Lemma split_parts_no_blank_line s : forall skip,
  no_blank_line (fst (split_parts (newline ++ newline) skip s)) = true /\
  Forall (fun p => no_blank_line p = true)
    (snd (split_parts (newline ++ newline) skip s)).
Proof.
  rewrite two_newlines.
  induction s as [|a s IH]; intro skip; [split; [reflexivity | constructor]|].
  cbn [split_parts]. destruct skip as [|k]; [|apply IH].
  rewrite prefix_blank_line.
  destruct ((a =? "010")%char
            && match s with
               | "" => false
               | String b _ => (b =? "010")%char
               end)%bool eqn:E.
  - destruct (IH (String.length
                    (String "010"%char (String "010"%char "")) - 1)%nat)
      as [H1 H2].
    destruct (split_parts _ _ s) as [p ps]. cbn [fst snd] in *.
    split; [reflexivity | constructor; assumption].
  - destruct (IH 0%nat) as [H1 H2].
    destruct (split_parts _ 0%nat s) as [p ps] eqn:Es. cbn [fst snd] in *.
    split; [|exact H2].
    cbn [no_blank_line]. rewrite H1, andb_true_r.
    destruct p as [|b p]; [reflexivity|].
    destruct (first_part_head _ _ _ _ _ Es) as [s' Hs']. subst s.
    rewrite E. reflexivity.
Qed.

Lemma split_no_blank_line s p :
  In p (split (newline ++ newline) s) -> no_blank_line p = true.
Proof.
  unfold split. pose proof (split_parts_no_blank_line s 0) as [H1 H2].
  destruct (split_parts (newline ++ newline) 0 s) as [q qs].
  cbn [fst snd] in *. intros [Hp|Hp]; [subst; exact H1|].
  rewrite Forall_forall in H2. apply H2. exact Hp.
Qed.

(** ** [strip] keeps what it is given free of empty lines *)

Lemma lstrip_no_blank_line s :
  no_blank_line s = true -> no_blank_line (lstrip s) = true.
Proof.
  induction s as [|a s IH]; [tauto|].
  intro H. cbn [lstrip]. destruct (is_space a); [|exact H].
  apply IH. exact (no_blank_line_tail _ _ H).
Qed.

Lemma rstrip_head s b r : rstrip s = String b r -> exists s', s = String b s'.
Proof.
  destruct s as [|a s]; cbn [rstrip]; [discriminate|].
  destruct (rstrip s); [destruct (is_space a); [discriminate|]|];
    intro H; inversion H; subst; eexists; reflexivity.
Qed.

Lemma rstrip_no_blank_line s :
  no_blank_line s = true -> no_blank_line (rstrip s) = true.
Proof.
  induction s as [|a s IH]; [tauto|].
  intro H. pose proof (IH (no_blank_line_tail _ _ H)) as Hs.
  cbn [rstrip]. destruct (rstrip s) as [|b r] eqn:E.
  - destruct (is_space a); reflexivity.
  - destruct (rstrip_head _ _ _ E) as [s' Hs']. subst s.
    cbn [no_blank_line] in H |- *. apply andb_true_iff in H.
    destruct H as [H _]. rewrite H. exact Hs.
Qed.

Lemma rstrip_idem s : rstrip (rstrip s) = rstrip s.
Proof.
  induction s as [|a s IH]; [reflexivity|].
  cbn [rstrip]. destruct (rstrip s) as [|b r] eqn:E.
  - destruct (is_space a) eqn:Ea; [reflexivity|].
    cbn [rstrip]. rewrite Ea. reflexivity.
  - cbn [rstrip]. cbn [rstrip] in IH. rewrite IH. reflexivity.
Qed.

Lemma rstrip_length s : (String.length (rstrip s) <= String.length s)%nat.
Proof.
  induction s as [|a s IH]; [reflexivity|].
  cbn [rstrip]. destruct (rstrip s).
  - destruct (is_space a); cbn [String.length]; lia.
  - cbn [String.length] in *. lia.
Qed.

(** The end of a stripped text is stripped. *)
Lemma rstrip_suffix x y : rstrip (x ++ y) = x ++ y -> rstrip y = y.
Proof.
  induction x as [|a x IH]; [tauto|].
  cbn [append rstrip]. destruct (rstrip (x ++ y)) as [|b r] eqn:E.
  - destruct (is_space a); [discriminate|].
    intro H. inversion H as [H1].
    destruct x; [|discriminate]. simpl in H1. subst y. reflexivity.
  - intro H. inversion H as [H1]. apply IH. exact H1.
Qed.

(** A text free of empty lines that does not end in white space is
    tight. *)
Lemma stripped_tight s :
  no_blank_line s = true -> rstrip s = s -> tight s = true.
Proof.
  induction s as [|a s IH]; [reflexivity|].
  intros Hn Hr.
  pose proof (rstrip_suffix (String a "") s Hr) as Hs.
  cbn [tight]. rewrite (IH (no_blank_line_tail _ _ Hn) Hs), andb_true_r.
  destruct (a =? "010")%char eqn:Ea; [|reflexivity].
  apply Ascii.eqb_eq in Ea. subst a.
  destruct s as [|b s]; [discriminate|].
  cbn [no_blank_line] in Hn. apply andb_true_iff in Hn. destruct Hn as [Hn _].
  exact Hn.
Qed.

(** ** The text of one parsed block *)

Lemma parsed_block_text block sub :
  no_blank_line block = true ->
  parse_block block = Ok (Some sub) ->
  block_text (sub_text sub).
Proof.
  intros Hnb H.
  assert (no_blank_line (strip block) = true) as HnB
    by (apply rstrip_no_blank_line, lstrip_no_blank_line; exact Hnb).
  assert (rstrip (strip block) = strip block) as HrB by apply rstrip_idem.
  pose proof (join_split_char "010"%char (strip block)) as Hjoin.
  change (String "010"%char "") with newline in Hjoin.
  unfold parse_block in H.
  destruct (split newline (strip block)) as [|l0 [|l1 [|r rs]]];
    try discriminate H.
  cbn [List.length Nat.leb nth skipn] in H.
  rewrite !join_two in Hjoin.
  remember (join newline (r :: rs)) as text eqn:Htext in *. clear Htext.
  destruct (py_int l0); [|discriminate].
  destruct (contains " --> " l1); [|discriminate].
  destruct (split " --> " l1) as [|a [|b [|c l]]]; try discriminate.
  destruct (parse_srt_time (strip a)); [|discriminate].
  destruct (parse_srt_time (strip b)); [|discriminate].
  cbn [bind] in H. inversion H as [Hsub]. cbn [sub_text]. clear H Hsub.
  assert (strip block = (l0 ++ newline ++ l1) ++ newline ++ text) as HB
    by (rewrite <- Hjoin, !app_string_assoc; reflexivity).
  rewrite HB in HnB, HrB.
  assert (rstrip text = text) as Hrt.
  { apply (rstrip_suffix ((l0 ++ newline ++ l1) ++ newline)).
    rewrite app_string_assoc. exact HrB. }
  assert (no_blank_line text = true) as Hnt.
  { apply (no_blank_line_app_r ((l0 ++ newline ++ l1) ++ newline)).
    rewrite app_string_assoc. exact HnB. }
  split; [|split; [|split; [exact (stripped_tight _ Hnt Hrt) | exact Hrt]]].
  - intro Hempty. rewrite Hempty in HrB.
    rewrite rstrip_app_spaces in HrB by reflexivity.
    pose proof (rstrip_length (l0 ++ newline ++ l1)) as Hlen.
    rewrite HrB, app_string_length in Hlen.
    change (String.length (newline ++ "")) with 1%nat in Hlen. lia.
  - destruct text as [|b0 t]; [reflexivity|].
    change newline with (String "010"%char ""). rewrite prefix_char.
    destruct (b0 =? "010")%char eqn:Eb; [|reflexivity].
    apply Ascii.eqb_eq in Eb. subst b0.
    apply no_blank_line_app_r in HnB.
    change (newline ++ String "010"%char t)
      with (String "010"%char (String "010"%char t)) in HnB.
    cbn [no_blank_line] in HnB. discriminate.
Qed.

Lemma parse_blocks_texts blocks : forall acc subs,
  Forall (fun block => no_blank_line block = true) blocks ->
  Forall (fun sub => block_text (sub_text sub)) acc ->
  parse_blocks blocks acc = Ok subs ->
  Forall (fun sub => block_text (sub_text sub)) subs.
Proof.
  induction blocks as [|b rest IH]; intros acc subs Hnb Hacc H;
    cbn [parse_blocks] in H.
  - inversion H. subst. exact Hacc.
  - inversion Hnb as [|b0 l Hb Hrest]; subst.
    destruct (parse_block b) as [[sub|]|e] eqn:E; cbn [bind] in H;
      [| |discriminate].
    + apply (IH _ _ Hrest) in H; [exact H|].
      apply Forall_app. split; [exact Hacc|].
      constructor; [|constructor].
      exact (parsed_block_text b sub Hb E).
    + exact (IH _ _ Hrest Hacc H).
Qed.

(** X11.  Every text [parse_srt_file] returns is not empty, has no line
    feed at its head, no empty line inside and no white space at its
    end. *)
Theorem parse_srt_file_texts (content : string) (subs : list subtitle) :
  parse_srt_file content = Ok subs ->
  Forall (fun sub => block_text (sub_text sub)) subs.
Proof.
  intro H. unfold parse_srt_file in H.
  apply (parse_blocks_texts (split (newline ++ newline) (strip content))
           [] subs); [|constructor|exact H].
  apply Forall_forall. intros block Hb.
  exact (split_no_blank_line (strip content) block Hb).
Qed.

Lemma parse_srt_file_texts_witness :
  exists subs,
    parse_srt_file srt_text_ok = Ok subs /\
    Forall (fun sub => block_text (sub_text sub)) subs.
Proof.
  assert (exists subs, parse_srt_file srt_text_ok = Ok subs) as [subs H]
    by (eexists; vm_compute; reflexivity).
  exists subs. split; [exact H|].
  exact (parse_srt_file_texts srt_text_ok subs H).
Defined.

(** * [main] *)

Local Open Scope list_scope.

(** ** The chunks it is given *)

Lemma chunk_entries_parsed (subs : list subtitle) (cdm om : Z) (fuel : nat)
    (cs : list chunk) (c : chunk) :
  split_srt_by_time fuel subs cdm om = Some cs -> In c cs ->
  forall sub, In sub (ch_subtitles c) -> In sub subs.
Proof.
  intros H Hc sub Hsub.
  destruct (split_spec _ _ _ _ _ H) as [m [H1 _]]. rewrite H1 in Hc.
  destruct (emit_In _ _ _ _ _ Hc) as [c0 [s [rest [_ [Hsel Heq]]]]].
  rewrite Heq in Hsub. change (In sub (s :: rest)) in Hsub.
  simpl in Hsel. rewrite <- Hsel in Hsub.
  apply select_In in Hsub. tauto.
Qed.

Lemma save_calls_chunk fmt dir c call :
  In call (save_calls_of fmt dir c) ->
  call = call_save_chunk_as_srt c
           (dir ++ "/chunk_" ++ format_d 2 (ch_number c) ++ ".srt")%string \/
  call = call_save_chunk_as_txt c
           (dir ++ "/chunk_" ++ format_d 2 (ch_number c) ++ ".txt")%string.
Proof.
  unfold save_calls_of. destruct fmt; simpl; intuition congruence.
Qed.



(** ** The names of the files *)

Lemma app_string_inv_head x : forall a b, (x ++ a = x ++ b)%string -> a = b.
Proof.
  induction x as [|c x IH]; intros a b H; [exact H|].
  cbn [append] in H. injection H as H. apply IH. exact H.
Qed.

Lemma app_string_inv_length x : forall x' y y',
  String.length x = String.length x' ->
  (x ++ y = x' ++ y')%string -> x = x' /\ y = y'.
Proof.
  induction x as [|c x IH]; intros [|c' x'] y y' Hlen H;
    try discriminate Hlen.
  - split; [reflexivity | exact H].
  - cbn [append] in H. injection H as Hc Hrest. subst c'.
    cbn [String.length] in Hlen.
    destruct (IH x' y y' ltac:(lia) Hrest) as [Hx Hy].
    subst. split; reflexivity.
Qed.

Lemma format_d_inj width z z' : format_d width z = format_d width z' -> z = z'.
Proof.
  intro H. pose proof (py_int_format_d width z) as H1.
  rewrite H, py_int_format_d in H1. congruence.
Qed.

(** Two file names with extensions of four characters are equal only for
    the same chunk number and the same extension. *)
Lemma chunk_file_inj dir n n' ext ext' :
  String.length ext = 4%nat -> String.length ext' = 4%nat ->
  (dir ++ "/chunk_" ++ format_d 2 n ++ ext
   = dir ++ "/chunk_" ++ format_d 2 n' ++ ext')%string ->
  n = n' /\ ext = ext'.
Proof.
  intros He He' H.
  apply app_string_inv_head in H. apply (app_string_inv_head "/chunk_") in H.
  assert (String.length (format_d 2 n) = String.length (format_d 2 n')) as Hl.
  { pose proof (f_equal String.length H) as Hlen.
    rewrite !app_string_length in Hlen. lia. }
  destruct (app_string_inv_length _ _ _ _ Hl H) as [Hn Hext].
  split; [exact (format_d_inj _ _ _ Hn) | exact Hext].
Qed.

Lemma emit_numbers_ge subs D starts : forall n c,
  In c (emit subs D n starts) -> n <= ch_number c.
Proof.
  induction starts as [|c0 tl IH]; intros n c H; simpl in H; [destruct H|].
  destruct (select subs c0 (c0 + D)).
  - apply IH. exact H.
  - destruct H as [H|H]; [subst c; simpl; lia|].
    apply IH in H. lia.
Qed.

Lemma emit_numbers_nodup subs D starts : forall n,
  NoDup (map ch_number (emit subs D n starts)).
Proof.
  induction starts as [|c0 tl IH]; intro n; simpl; [constructor|].
  destruct (select subs c0 (c0 + D)); [apply IH|].
  simpl. constructor; [|apply IH].
  intro Hin. apply in_map_iff in Hin. destruct Hin as [c [Hc Hin]].
  apply emit_numbers_ge in Hin. lia.
Qed.

Lemma save_calls_names_nodup fmt dir cs :
  NoDup (map ch_number cs) ->
  NoDup (map output_filename_of (flat_map (save_calls_of fmt dir) cs)).
Proof.
  induction cs as [|c cs IH]; intro Hnd; [constructor|].
  simpl in Hnd. inversion Hnd as [|n l Hnotin Hrest]; subst.
  cbn [flat_map]. rewrite map_app.
  assert (forall f, In f (map output_filename_of
                            (flat_map (save_calls_of fmt dir) cs)) ->
            exists c' ext, In c' cs /\ String.length ext = 4%nat /\
              f = (dir ++ "/chunk_" ++ format_d 2 (ch_number c') ++ ext)
                    %string) as Hrestnames.
  { intros f Hf. apply in_map_iff in Hf. destruct Hf as [call [Hf Hcall]].
    apply in_flat_map in Hcall. destruct Hcall as [c' [Hc' Hcall]].
    apply save_calls_chunk in Hcall.
    destruct Hcall as [Hcall|Hcall]; subst call f; simpl;
      [exists c', ".srt"%string | exists c', ".txt"%string];
      repeat split; assumption. }
  assert (forall ext, String.length ext = 4%nat ->
            ~ In (dir ++ "/chunk_" ++ format_d 2 (ch_number c) ++ ext)%string
                 (map output_filename_of
                    (flat_map (save_calls_of fmt dir) cs))) as Hfresh.
  { intros ext Hext Hin. apply Hrestnames in Hin.
    destruct Hin as [c' [ext' [Hc' [Hext' Heq]]]].
    destruct (chunk_file_inj _ _ _ _ _ Hext Hext' Heq) as [Hn _].
    apply Hnotin. rewrite Hn. apply in_map. exact Hc'. }
  pose proof (IH Hrest) as IHn.
  unfold save_calls_of at 1.
  destruct fmt; cbn [map app output_filename_of].
  - constructor; [apply Hfresh; reflexivity | exact IHn].
  - constructor; [apply Hfresh; reflexivity | exact IHn].
  - constructor.
    + intros [Heq|Hin].
      * destruct (chunk_file_inj dir (ch_number c) (ch_number c)
                    ".txt" ".srt" eq_refl eq_refl Heq) as [_ Hext].
        discriminate.
      * revert Hin. apply Hfresh. reflexivity.
    + constructor; [apply Hfresh; reflexivity | exact IHn].
Qed.

(** X13.  The files [main] writes have names that differ from one another,
    so no chunk file is written over, and every name begins with
    [session_chunks/chunk_], whatever directory was asked for.  With the
    format [txt] only [save_chunk_as_txt] is called, with [srt] only
    [save_chunk_as_srt]. *)
Theorem main_file_names (fuel : nat) (input : option string)
    (chunk_duration_minutes overlap_minutes : Z) (fmt : output_format)
    (output_dir : string) (calls : list save_call) :
  main fuel input chunk_duration_minutes overlap_minutes fmt output_dir
  = Some calls ->
  NoDup (map output_filename_of calls) /\
  (forall call, In call calls ->
     prefix "session_chunks/chunk_" (output_filename_of call) = true) /\
  (fmt = format_txt ->
   forall call, In call calls ->
     exists c f, call = call_save_chunk_as_txt c f) /\
  (fmt = format_srt ->
   forall call, In call calls ->
     exists c f, call = call_save_chunk_as_srt c f).
Proof.
  unfold main. intro H.
  assert (calls = [] \/
          exists subs cs,
            split_srt_by_time fuel subs chunk_duration_minutes overlap_minutes
            = Some cs /\
            calls = flat_map (save_calls_of fmt "session_chunks") cs)
    as [Hnil|[subs [cs [Hs Hcalls]]]].
  { destruct input as [content|]; [|left; congruence].
    destruct (parse_srt_file content) as [[|s0 rest]|e];
      try (left; congruence).
    destruct (split_srt_by_time fuel (s0 :: rest) _ _) as [cs|] eqn:Es;
      [|discriminate].
    right. exists (s0 :: rest), cs. split; [exact Es | congruence]. }
  { subst calls. split; [constructor|].
    repeat split; intros; contradiction. }
  subst calls. clear H.
  assert (forall call,
            In call (flat_map (save_calls_of fmt "session_chunks") cs) ->
            exists c,
              call = call_save_chunk_as_srt c
                       ("session_chunks" ++ "/chunk_"
                        ++ format_d 2 (ch_number c) ++ ".srt")%string \/
              call = call_save_chunk_as_txt c
                       ("session_chunks" ++ "/chunk_"
                        ++ format_d 2 (ch_number c) ++ ".txt")%string)
    as Hshape.
  { intros call Hin. apply in_flat_map in Hin. destruct Hin as [c [_ Hc]].
    exists c. apply (save_calls_chunk fmt "session_chunks"). exact Hc. }
  split; [|split; [|split]].
  - apply save_calls_names_nodup.
    destruct (split_spec _ _ _ _ _ Hs) as [m [H1 _]]. rewrite H1.
    apply emit_numbers_nodup.
  - intros call Hin. destruct (Hshape _ Hin) as [c [Hc|Hc]]; subst call;
      cbn [output_filename_of];
      exact (prefix_app "session_chunks/chunk_" _).
  - intros -> call Hin. apply in_flat_map in Hin.
    destruct Hin as [c [_ [Hc|[]]]]. subst call. eexists. eexists.
    reflexivity.
  - intros -> call Hin. apply in_flat_map in Hin.
    destruct Hin as [c [_ [Hc|[]]]]. subst call. eexists. eexists.
    reflexivity.
Qed.

Lemma main_file_names_witness :
  exists calls,
    main 1 (Some srt_text_ok) 30 2 format_both "elsewhere" = Some calls /\
    NoDup (map output_filename_of calls).
Proof.
  assert (exists calls, main 1 (Some srt_text_ok) 30 2 format_both "elsewhere"
                        = Some calls) as [calls H]
    by (eexists; vm_compute; reflexivity).
  exists calls. split; [exact H|].
  exact (proj1 (main_file_names 1 (Some srt_text_ok) 30 2 format_both
                  "elsewhere" calls H)).
Defined.

(** ** When nothing is written *)

Lemma bad_time_code_raises (content block start_time end_time : string) :
  In block (split (newline ++ newline) (strip content)) ->
  structurally_valid block = true ->
  split " --> " (nth 1 (split newline (strip block)) ""%string)
    = [start_time; end_time] ->
  parse_srt_time (strip start_time) = Raise ValueError \/
  parse_srt_time (strip end_time) = Raise ValueError ->
  parse_srt_file content = Raise ValueError.
Proof.
  intros Hin Hvalid Hsplit Hbad.
  unfold parse_srt_file. apply (parse_blocks_raise _ block); [exact Hin|].
  unfold structurally_valid in Hvalid. unfold parse_block.
  destruct (3 <=? List.length (split newline (strip block)))%nat;
    [|discriminate].
  destruct (py_int (nth 0 (split newline (strip block)) ""%string));
    [|discriminate].
  simpl in Hvalid. rewrite Hvalid, Hsplit.
  destruct Hbad as [Hbad|Hbad]; rewrite Hbad; [reflexivity|].
  destruct (parse_srt_time (strip start_time)) as [x|e];
    [reflexivity | rewrite (exn_unique e); reflexivity].
Qed.





(** * What [parse_srt_time] accepts *)

Local Open Scope string_scope.

(** ** The characters [int] admits *)

Section IntChars.

Variable c : ascii.
Hypothesis c_not_space : is_space c = false.
Hypothesis c_not_digit : is_digit c = false.
Hypothesis c_not_underscore : (c =? "_")%char = false.
Hypothesis c_not_minus : (c =? "-")%char = false.
Hypothesis c_not_plus : (c =? "+")%char = false.

Lemma differs_of (p : ascii -> bool) a :
  p a = true -> p c = false -> differs c a = true.
Proof.
  intros Ha Hc. unfold differs. apply negb_true_iff, Ascii.eqb_neq.
  intro Heq. subst a. congruence.
Qed.

Lemma int_digits_chars s : forall acc after z,
  int_digits acc after s = Some z -> all_chars (differs c) s = true.
Proof.
  induction s as [|a s IH]; intros acc after z H; [reflexivity|].
  cbn [int_digits] in H. cbn [all_chars].
  destruct (is_digit a) eqn:Ed.
  - rewrite (differs_of is_digit a Ed c_not_digit). exact (IH _ _ _ H).
  - destruct (a =? "_")%char eqn:Eu; [|discriminate].
    destruct after; [|discriminate].
    rewrite (differs_of (fun x => (x =? "_")%char) a Eu c_not_underscore).
    exact (IH _ _ _ H).
Qed.

Lemma lstrip_chars s :
  all_chars (differs c) (lstrip s) = true -> all_chars (differs c) s = true.
Proof.
  induction s as [|a s IH]; [tauto|].
  cbn [lstrip]. destruct (is_space a) eqn:Ea; [|tauto].
  intro H. cbn [all_chars].
  rewrite (differs_of is_space a Ea c_not_space). exact (IH H).
Qed.

Lemma rstrip_chars s :
  all_chars (differs c) (rstrip s) = true -> all_chars (differs c) s = true.
Proof.
  induction s as [|a s IH]; [tauto|].
  cbn [rstrip]. destruct (rstrip s) as [|b r] eqn:E.
  - destruct (is_space a) eqn:Ea; intro H; cbn [all_chars] in H |- *.
    + rewrite (differs_of is_space a Ea c_not_space). exact (IH eq_refl).
    + apply andb_true_iff in H. destruct H as [-> _]. exact (IH eq_refl).
  - intro H. cbn [all_chars] in H |- *. apply andb_true_iff in H.
    destruct H as [-> H]. exact (IH H).
Qed.

Lemma py_int_chars s z :
  py_int s = Some z -> all_chars (differs c) s = true.
Proof.
  unfold py_int, strip. intro H.
  apply lstrip_chars, rstrip_chars.
  destruct (rstrip (lstrip s)) as [|a r]; [discriminate|].
  destruct (a =? "-")%char eqn:Em.
  - destruct (int_digits 0 false r) as [v|] eqn:Ei; [|discriminate].
    cbn [all_chars].
    rewrite (differs_of (fun x => (x =? "-")%char) a Em c_not_minus).
    exact (int_digits_chars _ _ _ _ Ei).
  - destruct (a =? "+")%char eqn:Ep.
    + cbn [all_chars].
      rewrite (differs_of (fun x => (x =? "+")%char) a Ep c_not_plus).
      exact (int_digits_chars _ _ _ _ H).
    + exact (int_digits_chars _ _ _ _ H).
Qed.

End IntChars.

(** ** The parts of a text split at a character *)

Lemma split_parts_char_clean c s :
  all_chars (differs c) (fst (split_parts (String c "") 0 s)) = true /\
  Forall (fun p => all_chars (differs c) p = true)
    (snd (split_parts (String c "") 0 s)).
Proof.
  induction s as [|a s IH]; [split; [reflexivity | constructor]|].
  cbn [split_parts]. rewrite prefix_char.
  change (String.length (String c "") - 1)%nat with 0%nat.
  destruct (split_parts (String c "") 0 s) as [p ps].
  cbn [fst snd] in IH. destruct IH as [H1 H2].
  destruct (a =? c)%char eqn:E; cbn [fst snd].
  - split; [reflexivity | constructor; assumption].
  - split; [|exact H2]. cbn [all_chars]. unfold differs at 1.
    rewrite E, H1. reflexivity.
Qed.

Lemma split_char_inv2 c s a b :
  split (String c "") s = [a; b]%list ->
  s = a ++ String c b /\ all_chars (differs c) a = true.
Proof.
  intro H. pose proof (join_split_char c s) as Hj. rewrite H in Hj.
  split; [symmetry; exact Hj|].
  pose proof (split_parts_char_clean c s) as [H1 _].
  unfold split in H. destruct (split_parts (String c "") 0 s) as [p ps].
  cbn [fst] in H1. inversion H. subst. exact H1.
Qed.

Lemma split_char_inv3 c s a b d :
  split (String c "") s = [a; b; d]%list ->
  s = a ++ String c (b ++ String c d).
Proof.
  intro H. pose proof (join_split_char c s) as Hj. rewrite H in Hj.
  symmetry. exact Hj.
Qed.


